(** * A minimal Transformer next-token predictor: embedding and proofs

    Shallow embedding of [predictor.ipynb]: the whitespace tokenizer, the
    embedding lookup, the sinusoidal positional encoding, single-head
    self-attention, the transformer block, the stacked language model and
    the argmax used for inference.

    Conventions.
    - Python exceptions are values of [exn]; a computation that can raise
      returns a [result].
    - A torch tensor of rank three is a shape together with an index
      function; float32 entries are idealised as real numbers (rounding,
      overflow and NaN are outside this model, so every theorem that
      divides by the feature dimension assumes it positive).
    - A Python [str] is a [string] whose characters are read as code
      points below 256. *)

From Stdlib Require Import Reals Lra Lia ZArith List Ascii String.
From stdpp Require Import base option list gmap strings.
From Stdlib Require Import Sorting.Permutation Lists.Finite.

Local Open Scope string_scope.
Local Open Scope list_scope.

(** ** Exceptions and results *)

Module Py.

Inductive exn : Type :=
| KeyError (key : string)      (* dict subscript on a missing key *)
| IndexError                   (* index outside a table or an empty axis *)
| RuntimeError                 (* torch shape or dtype mismatch *)
| ZeroDivisionError.           (* Python float division by zero *)

Inductive result (A : Type) : Type :=
| Ok (a : A)
| Raise (e : exn).

Arguments Ok {A} a.
Arguments Raise {A} e.

#[export] Instance result_ret : MRet result := fun _ a => Ok a.
#[export] Instance result_bind : MBind result := fun _ _ f m =>
  match m with
  | Ok a => f a
  | Raise e => Raise e
  end.
#[export] Instance result_fmap : FMap result := fun _ _ f m =>
  match m with
  | Ok a => Ok (f a)
  | Raise e => Raise e
  end.

Definition is_ok {A} (m : result A) : bool :=
  match m with Ok _ => true | Raise _ => false end.

(** [[f(x) for x in xs]]: elements are evaluated left to right and the
    first exception aborts the comprehension. *)
Fixpoint comprehension {A B} (f : A -> result B) (xs : list A) : result (list B) :=
  match xs with
  | [] => Ok []
  | x :: xs' =>
      y ← f x;
      ys ← comprehension f xs';
      Ok (y :: ys)
  end.

End Py.
Import Py.

(** ** Step 1: tokenization *)

Module Tokenizer.

(** [str.isspace] on code points below 256: TAB, LF, VT, FF, CR, the four
    separators FS GS RS US, SPACE, NEL and NBSP. *)
Definition isspace (c : ascii) : bool :=
  let n := nat_of_ascii c in
  ((9 <=? n)%nat && (n <=? 13)%nat) || ((28 <=? n)%nat && (n <=? 32)%nat)
  || (n =? 133)%nat || (n =? 160)%nat.

Definition string_of_rev (cur : list ascii) : string :=
  string_of_list_ascii (rev cur).

(** The word being accumulated (kept reversed) is emitted when it is not
    empty. *)
Definition flush (cur : list ascii) : list string :=
  match cur with
  | [] => []
  | _ :: _ => [string_of_rev cur]
  end.

(** [text.split()] with no separator: runs of whitespace separate words,
    leading and trailing whitespace is dropped, no empty word is produced. *)
Fixpoint split_from (cur : list ascii) (text : string) : list string :=
  match text with
  | EmptyString => flush cur
  | String c rest =>
      if isspace c then flush cur ++ split_from [] rest
      else split_from (c :: cur) rest
  end.

Definition split (text : string) : list string := split_from [] text.

(** The text has no word: it is empty or all whitespace. *)
Definition blank (text : string) : bool :=
  forallb isspace (list_ascii_of_string text).

(** A word: not empty, no whitespace in it. *)
Definition is_word (w : string) : bool :=
  negb (String.length w =? 0)%nat
  && forallb (fun c => negb (isspace c)) (list_ascii_of_string w).

(** What may follow a word: the end of the text, or whitespace. *)
Definition word_end (rest : string) : Prop :=
  match rest with
  | EmptyString => True
  | String c _ => isspace c = true
  end.

(** [splits text words]: the text is the words in order, each one a
    maximal run without whitespace, with whitespace around them. *)
Inductive splits : string -> list string -> Prop :=
| splits_blank text :
    blank text = true -> splits text []
| splits_word gap w rest ws :
    blank gap = true -> is_word w = true -> word_end rest ->
    splits rest ws ->
    splits (String.append gap (String.append w rest)) (w :: ws).

(** [vocab[key]] *)
Definition getitem (vocab : gmap string Z) (key : string) : result Z :=
  match vocab !! key with
  | Some v => Ok v
  | None => Raise (KeyError key)
  end.

(** [vocab.get(key, default)] *)
Definition get (vocab : gmap string Z) (key : string) (default : Z) : Z :=
  match vocab !! key with
  | Some v => v
  | None => default
  end.

(** [vocab.get(word, vocab["<UNK>"])]: the arguments of a call are
    evaluated before the call, so the subscript runs first. *)
Definition lookup_word (vocab : gmap string Z) (word : string) : result Z :=
  unk ← getitem vocab "<UNK>";
  Ok (get vocab word unk).

Definition tokenize (text : string) (vocab : gmap string Z) : result (list Z) :=
  comprehension (lookup_word vocab) (split text).

(** The vocabulary of the training cell. *)
Definition vocab : gmap string Z :=
  <["hello" := 0%Z]> (<["world" := 1%Z]> (<["what" := 2%Z]> (<["are" := 3%Z]>
  (<["you" := 4%Z]> (<["doing" := 5%Z]> (<["<UNK>" := 6%Z]> ∅)))))).

End Tokenizer.

(** ** Tensors *)

Module Torch.

Local Open Scope R_scope.

(** A rank-3 float tensor: its shape and its entries. Entries outside the
    shape are never read by the operations below. *)
Record Tensor : Type := mkTensor {
  dim0 : nat;
  dim1 : nat;
  dim2 : nat;
  at3 : nat -> nat -> nat -> R
}.

(** A rank-2 float tensor. *)
Record Matrix : Type := mkMatrix {
  rows : nat;
  cols : nat;
  at2 : nat -> nat -> R
}.

(** A rank-2 integer tensor (token ids of a batch). *)
Record LongTensor : Type := mkLongTensor {
  ldim0 : nat;
  ldim1 : nat;
  lat : nat -> nat -> Z
}.

Definition shape (t : Tensor) : nat * nat * nat := (dim0 t, dim1 t, dim2 t).

(** Sum of [f 0 .. f (n-1)]. *)
Fixpoint rsum (n : nat) (f : nat -> R) : R :=
  match n with
  | O => 0
  | S k => rsum k f + f k
  end.

(** Broadcasting of one axis: equal sizes, or one of them is 1. *)
Definition broadcast_dim (a b : nat) : result nat :=
  if (a =? b)%nat then Ok a
  else if (a =? 1)%nat then Ok b
  else if (b =? 1)%nat then Ok a
  else Raise RuntimeError.

(** Index into an axis of size [d] that may have been expanded from 1. *)
Definition bidx (d i : nat) : nat := if (d =? 1)%nat then O else i.

(** [x + y] on rank-3 tensors, with broadcasting. *)
Definition add (x y : Tensor) : result Tensor :=
  n0 ← broadcast_dim (dim0 x) (dim0 y);
  n1 ← broadcast_dim (dim1 x) (dim1 y);
  n2 ← broadcast_dim (dim2 x) (dim2 y);
  Ok (mkTensor n0 n1 n2 (fun i j k =>
        at3 x (bidx (dim0 x) i) (bidx (dim1 x) j) (bidx (dim2 x) k)
        + at3 y (bidx (dim0 y) i) (bidx (dim1 y) j) (bidx (dim2 y) k))).

(** [t.transpose(0, 1)] and [t.transpose(1, 2)] *)
Definition transpose01 (t : Tensor) : Tensor :=
  mkTensor (dim1 t) (dim0 t) (dim2 t) (fun i j k => at3 t j i k).

Definition transpose12 (t : Tensor) : Tensor :=
  mkTensor (dim0 t) (dim2 t) (dim1 t) (fun i j k => at3 t i k j).

(** [t[:n, :]]: a slice never fails, it stops at the end of the axis. *)
Definition slice0 (t : Tensor) (n : nat) : Tensor :=
  mkTensor (Nat.min n (dim0 t)) (dim1 t) (dim2 t) (at3 t).

(** [torch.bmm(a, b)]: batched matrix product. *)
Definition bmm (a b : Tensor) : result Tensor :=
  if (dim0 a =? dim0 b)%nat && (dim2 a =? dim1 b)%nat then
    Ok (mkTensor (dim0 a) (dim1 a) (dim2 b) (fun n i j =>
          rsum (dim2 a) (fun k => at3 a n i k * at3 b n k j)))
  else Raise RuntimeError.

(** [t / c] for a scalar (0-dimensional) tensor [c]. *)
Definition div_scalar (t : Tensor) (c : R) : Tensor :=
  mkTensor (dim0 t) (dim1 t) (dim2 t) (fun n i j => at3 t n i j / c).

(** [torch.softmax(t, dim=-1)] *)
Definition softmax (t : Tensor) : Tensor :=
  mkTensor (dim0 t) (dim1 t) (dim2 t) (fun n i j =>
    exp (at3 t n i j) / rsum (dim2 t) (fun k => exp (at3 t n i k))).

(** [torch.tensor(tokens).unsqueeze(0)] for a non-empty list of ints that
    fit 64 bits; [torch.tensor] rejects any other int before the model is
    called, and such lists are outside this model. *)
Definition tensor_unsqueeze (tokens : list Z) : LongTensor :=
  mkLongTensor 1 (List.length tokens) (fun _ j => nth j tokens 0%Z).

(** [t[:, -1, :]] *)
Definition select_last (t : Tensor) : result Matrix :=
  if (dim1 t =? 0)%nat then Raise IndexError
  else Ok (mkMatrix (dim0 t) (dim2 t) (fun n k => at3 t n (dim1 t - 1) k)).

(** Entries of a matrix in row-major order. *)
Definition flatten (m : Matrix) : list R :=
  flat_map (fun i => map (at2 m i) (seq 0 (cols m))) (seq 0 (rows m)).

(** [torch.argmax] of a flattened tensor: the index of the first maximal
  entry; an empty tensor has no argmax. *)
Section Argmax.
Context {A : Type} (gtb : A -> A -> bool).

Fixpoint argmax_from (best_i : nat) (best : A) (i : nat) (l : list A) : nat :=
  match l with
  | [] => best_i
  | x :: l' =>
      if gtb x best then argmax_from i x (S i) l'
      else argmax_from best_i best (S i) l'
  end.

Definition argmax (l : list A) : result nat :=
  match l with
  | [] => Raise IndexError
  | x :: l' => Ok (argmax_from 0%nat x 1%nat l')
  end.
End Argmax.

Definition Rgtb (x y : R) : bool := if Rgt_dec x y then true else false.

(** *** [nn.Linear] *)
Module Linear.
Record t : Type := mk {
  in_features : nat;
  out_features : nat;
  weight : nat -> nat -> R;      (* out_features x in_features *)
  bias : nat -> R
}.

(** [x @ weight.T + bias] on the last axis. *)
Definition forward (l : t) (x : Tensor) : result Tensor :=
  if (dim2 x =? in_features l)%nat then
    Ok (mkTensor (dim0 x) (dim1 x) (out_features l) (fun n i o =>
          rsum (in_features l) (fun k => at3 x n i k * weight l o k) + bias l o))
  else Raise RuntimeError.

(** Shapes fixed by [nn.Linear(i, o)]. *)
Definition constructed (i o : nat) (l : t) : Prop :=
  in_features l = i /\ out_features l = o.
End Linear.

(** *** [nn.ReLU] *)
Definition relu (t : Tensor) : Tensor :=
mkTensor (dim0 t) (dim1 t) (dim2 t) (fun n i j => Rmax 0 (at3 t n i j)).

(** *** [nn.LayerNorm] with its default [eps] and affine parameters *)
Module LayerNorm.
Record t : Type := mk {
  normalized_shape : nat;
  weight : nat -> R;
  bias : nat -> R
}.

Definition eps : R := 1 / 100000.

Definition mean (n : nat) (v : nat -> R) : R := rsum n v / INR n.

(** The biased variance (divisor [n]). *)
Definition var (n : nat) (v : nat -> R) : R :=
  rsum n (fun k => (v k - mean n v) * (v k - mean n v)) / INR n.

Definition normalize (n : nat) (v : nat -> R) : nat -> R :=
  fun k => (v k - mean n v) / sqrt (var n v + eps).

Definition forward (l : t) (x : Tensor) : result Tensor :=
  if (dim2 x =? normalized_shape l)%nat then
    Ok (mkTensor (dim0 x) (dim1 x) (dim2 x) (fun n i k =>
          normalize (dim2 x) (at3 x n i) k * weight l k + bias l k))
  else Raise RuntimeError.

Definition constructed (d : nat) (l : t) : Prop := normalized_shape l = d.
End LayerNorm.

End Torch.
Import Torch.

(** ** Step 2: embedding layer *)

Module Embedding.
Record t : Type := mk {
  num_embeddings : nat;
  embedding_dim : nat;
  weight : nat -> nat -> R       (* num_embeddings x embedding_dim *)
}.

Definition valid_id (e : t) (id : Z) : bool :=
  (0 <=? id)%Z && (id <? Z.of_nat (num_embeddings e))%Z.

Definition in_range (e : t) (x : LongTensor) : bool :=
  forallb (fun n => forallb (fun i => valid_id e (lat x n i)) (seq 0 (ldim1 x)))
          (seq 0 (ldim0 x)).

(** [self.embedding(x)]: one table row per id; an id outside the table
    raises [IndexError]. *)
Definition forward (e : t) (x : LongTensor) : result Tensor :=
  if in_range e x then
    Ok (mkTensor (ldim0 x) (ldim1 x) (embedding_dim e) (fun n i k =>
          weight e (Z.to_nat (lat x n i)) k))
  else Raise IndexError.

Definition constructed (vocab_size d : nat) (e : t) : Prop :=
  num_embeddings e = vocab_size /\ embedding_dim e = d.
End Embedding.

(** ** Step 3: positional encoding *)

Module PositionalEncoding.
Local Open Scope R_scope.

Record t : Type := mk {
  embedding_dim : nat;
  pe : Tensor                    (* the registered buffer *)
}.

(** [len(range(start, n, 2))] *)
Definition strided_len (start n : nat) : nat := ((n - start + 1) / 2)%nat.

(** A source of size [a] can be expanded to a destination of size [b]. *)
Definition expandable (a b : nat) : bool := (a =? b)%nat || (a =? 1)%nat.

(** [dst[:, start::2] = src] *)
Definition setitem_stride2 (dst : Matrix) (start : nat) (src : Matrix) : result Matrix :=
  if expandable (rows src) (rows dst)
     && expandable (cols src) (strided_len start (cols dst))
  then
    Ok (mkMatrix (rows dst) (cols dst) (fun p c =>
          if (start <=? c)%nat && Nat.even (c - start) then
            at2 src (bidx (rows src) p) (bidx (cols src) ((c - start) / 2))
          else at2 dst p c))
  else Raise RuntimeError.

(** [exp(arange(0, D, 2).float() * (-math.log(10000.0) / D))], entry [k]. *)
Definition div_term (embedding_dim k : nat) : R :=
  exp (INR (2 * k) * (- ln 10000 / INR embedding_dim)).

(** [position * div_term]: a column times a row. *)
Definition angles (embedding_dim max_seq_len : nat) : Matrix :=
  mkMatrix max_seq_len (strided_len 0 embedding_dim)
           (fun p k => INR p * div_term embedding_dim k).

Definition map_matrix (f : R -> R) (m : Matrix) : Matrix :=
  mkMatrix (rows m) (cols m) (fun p c => f (at2 m p c)).

Definition zeros (r c : nat) : Matrix := mkMatrix r c (fun _ _ => 0).

(** [m.unsqueeze(0).transpose(0, 1)] *)
Definition unsqueeze_transpose (m : Matrix) : Tensor :=
  mkTensor (rows m) 1 (cols m) (fun p _ c => at2 m p c).

(** [__init__]: Python's float division raises on a zero dimension; the
    two strided assignments raise when the right-hand side cannot be
    expanded to the selected columns. *)
Definition init (embedding_dim max_seq_len : nat) : result t :=
  if (embedding_dim =? 0)%nat then Raise ZeroDivisionError
  else
    let a := angles embedding_dim max_seq_len in
    pe0 ← setitem_stride2 (zeros max_seq_len embedding_dim) 0 (map_matrix sin a);
    pe1 ← setitem_stride2 pe0 1 (map_matrix cos a);
    Ok (mk embedding_dim (unsqueeze_transpose pe1)).

(** [x + self.pe[:x.size(0), :]] *)
Definition forward (self : t) (x : Tensor) : result Tensor :=
  add x (slice0 (pe self) (dim0 x)).

Definition max_seq_len (self : t) : nat := dim0 (pe self).
End PositionalEncoding.

(** ** Step 4: self-attention *)

Module SelfAttention.
Local Open Scope R_scope.

Record t : Type := mk {
  query : Linear.t;
  key : Linear.t;
  value : Linear.t
}.

(** [torch.softmax(bmm(q, k.transpose(1, 2)) / sqrt(x.size(-1)), dim=-1)] *)
Definition attention_weights (x queries keys : Tensor) : result Tensor :=
  qk ← bmm queries (transpose12 keys);
  let scores := div_scalar qk (sqrt (INR (dim2 x))) in
  Ok (softmax scores).

Definition forward (self : t) (x : Tensor) : result Tensor :=
  queries ← Linear.forward (query self) x;
  keys ← Linear.forward (key self) x;
  values ← Linear.forward (value self) x;
  attention_weights ← attention_weights x queries keys;
  bmm attention_weights values.

Definition constructed (d : nat) (self : t) : Prop :=
  Linear.constructed d d (query self)
  /\ Linear.constructed d d (key self)
  /\ Linear.constructed d d (value self).
End SelfAttention.

(** ** Step 5: transformer block *)

Module TransformerBlock.
Record t : Type := mk {
  attention : SelfAttention.t;
  ff_in : Linear.t;              (* feed_forward[0] *)
  ff_out : Linear.t;             (* feed_forward[2] *)
  norm1 : LayerNorm.t;
  norm2 : LayerNorm.t
}.

(** [nn.Sequential(Linear, ReLU, Linear)] *)
Definition feed_forward (self : t) (x : Tensor) : result Tensor :=
  h ← Linear.forward (ff_in self) x;
  Linear.forward (ff_out self) (relu h).

Definition forward (self : t) (x : Tensor) : result Tensor :=
  attended ← SelfAttention.forward (attention self) x;
  s1 ← add x attended;
  x ← LayerNorm.forward (norm1 self) s1;
  forwarded ← feed_forward self x;
  s2 ← add x forwarded;
  LayerNorm.forward (norm2 self) s2.

Definition constructed (d hidden : nat) (self : t) : Prop :=
  SelfAttention.constructed d (attention self)
  /\ Linear.constructed d hidden (ff_in self)
  /\ Linear.constructed hidden d (ff_out self)
  /\ LayerNorm.constructed d (norm1 self)
  /\ LayerNorm.constructed d (norm2 self).
End TransformerBlock.

(** ** The full language model *)

Module SimpleLLM.
Record t : Type := mk {
  embedding : Embedding.t;
  positional_encoding : PositionalEncoding.t;
  transformer_blocks : list TransformerBlock.t;
  output : Linear.t
}.

(** [nn.Sequential] over the blocks: each block's output feeds the next. *)
Fixpoint sequential (blocks : list TransformerBlock.t) (x : Tensor) : result Tensor :=
  match blocks with
  | [] => Ok x
  | b :: rest =>
      y ← TransformerBlock.forward b x;
      sequential rest y
  end.

Definition forward (self : t) (x : LongTensor) : result Tensor :=
  x ← Embedding.forward (embedding self) x;
  let x := transpose01 x in
  x ← PositionalEncoding.forward (positional_encoding self) x;
  let x := transpose01 x in
  x ← sequential (transformer_blocks self) x;
  Linear.forward (output self) x.

(** The default [max_seq_len] of [PositionalEncoding]. *)
Definition default_max_seq_len : nat := 5000.

(** What the constructor, called with [vocab_size], [embedding_dim],
    [hidden_dim] and [num_layers], fixes: every shape, and the positional table; the learned entries
    are arbitrary. *)
Definition constructed (vocab_size d hidden num_layers : nat) (self : t) : Prop :=
  Embedding.constructed vocab_size d (embedding self)
  /\ PositionalEncoding.init d default_max_seq_len = Ok (positional_encoding self)
  /\ List.length (transformer_blocks self) = num_layers
  /\ Forall (TransformerBlock.constructed d hidden) (transformer_blocks self)
  /\ Linear.constructed d vocab_size (output self).

(** The inference cell: [torch.argmax(model(input_tensor)[:, -1, :]).item()].
    [torch.tensor([])] is a float tensor, which the embedding rejects. *)
Definition predict_next (self : t) (tokens : list Z) : result nat :=
  match tokens with
  | [] => Raise RuntimeError
  | _ :: _ =>
      out ← forward self (tensor_unsqueeze tokens);
      last ← select_last out;
      argmax Rgtb (flatten last)
  end.
End SimpleLLM.

(** ** The attention algorithm as the specification words it

    One sequence is an L x D matrix: project it to Q, K and V, take
    Q . K^T, scale by 1/sqrt D, take the softmax of every row, multiply by V. *)

Module Spec.
Local Open Scope R_scope.

Definition project (l : Linear.t) (x : Matrix) : Matrix :=
  mkMatrix (rows x) (Linear.out_features l) (fun i o =>
    rsum (cols x) (fun k => at2 x i k * Linear.weight l o k) + Linear.bias l o).

Definition matmul (a b : Matrix) : Matrix :=
  mkMatrix (rows a) (cols b) (fun i j =>
    rsum (cols a) (fun k => at2 a i k * at2 b k j)).

Definition transpose (m : Matrix) : Matrix :=
  mkMatrix (cols m) (rows m) (fun i j => at2 m j i).

Definition scale (c : R) (m : Matrix) : Matrix :=
  mkMatrix (rows m) (cols m) (fun i j => c * at2 m i j).

Definition row_softmax (m : Matrix) : Matrix :=
  mkMatrix (rows m) (cols m) (fun i j =>
    exp (at2 m i j) / rsum (cols m) (fun k => exp (at2 m i k))).

Definition scaled_scores (sa : SelfAttention.t) (x : Matrix) : Matrix :=
  let Q := project (SelfAttention.query sa) x in
  let K := project (SelfAttention.key sa) x in
  scale (1 / sqrt (INR (cols x))) (matmul Q (transpose K)).

Definition weights (sa : SelfAttention.t) (x : Matrix) : Matrix :=
  row_softmax (scaled_scores sa x).

Definition attend (sa : SelfAttention.t) (x : Matrix) : Matrix :=
  matmul (weights sa x) (project (SelfAttention.value sa) x).

(** [s] is the residual sum [x + a]. *)
Definition residual (x a s : Tensor) : Prop :=
  shape s = shape x
  /\ forall n i k, (n < dim0 x)%nat -> (i < dim1 x)%nat -> (k < dim2 x)%nat ->
       at3 s n i k = at3 x n i k + at3 a n i k.

(** [y] is [s] with every position's vector normalised across the feature
    axis and then scaled and shifted by the learned parameters. *)
Definition layer_normed (l : LayerNorm.t) (s y : Tensor) : Prop :=
  shape y = shape s
  /\ forall n i k, (n < dim0 s)%nat -> (i < dim1 s)%nat -> (k < dim2 s)%nat ->
       at3 y n i k
       = LayerNorm.normalize (dim2 s) (at3 s n i) k * LayerNorm.weight l k
         + LayerNorm.bias l k.

(** [y] is linear(D -> hidden), then max(0, v) elementwise, then
    linear(hidden -> D), applied to every position of [x]. *)
Definition feed_forwarded (w_in w_out : Linear.t) (x y : Tensor) : Prop :=
  shape y = (dim0 x, dim1 x, Linear.out_features w_out)
  /\ forall n i c,
       at3 y n i c
       = rsum (Linear.out_features w_in) (fun j =>
           Rmax 0 (rsum (dim2 x) (fun k => at3 x n i k * Linear.weight w_in j k)
                   + Linear.bias w_in j)
           * Linear.weight w_out c j)
         + Linear.bias w_out c.

(** The sequence number [n] of a batch. *)
Definition batch_item (x : Tensor) (n : nat) : Matrix :=
  mkMatrix (dim1 x) (dim2 x) (at3 x n).

End Spec.

(** ** Small concrete objects used to exercise the definitions *)

Module Demo.
Local Open Scope R_scope.

Definition zero_linear (i o : nat) : Linear.t :=
  Linear.mk i o (fun _ _ => 0) (fun _ => 0).

Definition attn (d : nat) : SelfAttention.t :=
  SelfAttention.mk (zero_linear d d) (zero_linear d d) (zero_linear d d).

(** [nn.LayerNorm] starts with weight one and bias zero. *)
Definition fresh_norm (d : nat) : LayerNorm.t :=
  LayerNorm.mk d (fun _ => 1) (fun _ => 0).

Definition block (d hidden : nat) : TransformerBlock.t :=
  TransformerBlock.mk (attn d) (zero_linear d hidden) (zero_linear hidden d)
                      (fresh_norm d) (fresh_norm d).

Definition const_tensor (b l d : nat) (c : R) : Tensor :=
  mkTensor b l d (fun _ _ _ => c).

Definition no_encoding : PositionalEncoding.t :=
  PositionalEncoding.mk 0 (const_tensor 0 1 0 0).

Definition encoding (d max_seq_len : nat) : PositionalEncoding.t :=
  match PositionalEncoding.init d max_seq_len with
  | Ok p => p
  | Raise _ => no_encoding
  end.

(** Two words, two features, two hidden units, one block. *)
Definition model : SimpleLLM.t :=
  SimpleLLM.mk (Embedding.mk 2 2 (fun _ _ => 0))
               (encoding 2 SimpleLLM.default_max_seq_len)
               [block 2 2]
               (zero_linear 2 2).

End Demo.

(** ** The training and inference cells

    The cells around the model: the pairs the training loop feeds to it,
    the loss it computes on the last position, and the lookup that turns
    the predicted id back into a word. The backward pass and the optimizer
    step are not modelled. *)

Module Cells.
Local Open Scope R_scope.

(** The cells can raise [ValueError] besides the exceptions of the model. *)
Inductive cell_exn : Type :=
| Model (e : exn)
| ValueError.

Inductive outcome (A : Type) : Type :=
| Returned (a : A)
| Raised (e : cell_exn).

Arguments Returned {A} a.
Arguments Raised {A} e.

(** A dict in insertion order: [list(vocab.items())]. Its keys are
    distinct. *)
Definition keys (items : list (string * Z)) : list string := map fst items.
Definition values (items : list (string * Z)) : list Z := map snd items.

(** The dict as [tokenize] reads it. *)
Definition as_vocab (items : list (string * Z)) : gmap string Z :=
  list_to_map items.

(** The vocabulary literal of the training cell. *)
Definition vocab_items : list (string * Z) :=
  [("hello", 0%Z); ("world", 1%Z); ("what", 2%Z); ("are", 3%Z);
   ("you", 4%Z); ("doing", 5%Z); ("<UNK>", 6%Z)].

(** [xs.index(v)]: the position of the first occurrence. *)
Fixpoint index (v : Z) (xs : list Z) : option nat :=
  match xs with
  | [] => None
  | x :: xs' => if (x =? v)%Z then Some O else S <$> index v xs'
  end.

(** [list(vocab.keys())[list(vocab.values()).index(token)]] *)
Definition word_of (items : list (string * Z)) (token : Z) : outcome string :=
  match index token (values items) with
  | None => Raised ValueError
  | Some i =>
      match nth_error (keys items) i with
      | Some word => Returned word
      | None => Raised (Model IndexError)
      end
  end.

(** The inference cell: tokenize, predict, look the word up. *)
Definition inference (model : SimpleLLM.t) (items : list (string * Z))
    (input_text : string) : outcome string :=
  match Tokenizer.tokenize input_text (as_vocab items) with
  | Raise e => Raised (Model e)
  | Ok input_tokens =>
      match SimpleLLM.predict_next model input_tokens with
      | Raise e => Raised (Model e)
      | Ok predicted_token => word_of items (Z.of_nat predicted_token)
      end
  end.

(** [for i in range(1, len(sentence))]: the pair
    [(sentence[:i], sentence[i])]. *)
Definition training_pairs (sentence : list Z) : list (list Z * Z) :=
  map (fun i => (firstn i sentence, nth i sentence 0%Z))
      (seq 1 (List.length sentence - 1)).

(** A loss is a number, or NaN when the only target is the ignored
    index. *)
Inductive loss_value : Type :=
| Finite (r : R)
| NaN.

Definition ignore_index : Z := (-100)%Z.

(** [nn.CrossEntropyLoss()(input, target)] for a target of shape (1,):
    minus the logarithm of the softmax probability of the target class. *)
Definition cross_entropy (input : Matrix) (target : Z) : outcome loss_value :=
  if negb (rows input =? 1)%nat then Raised ValueError
  else if (target =? ignore_index)%Z then Returned NaN
  else if (0 <=? target)%Z && (target <? Z.of_nat (cols input))%Z then
    Returned (Finite
      (- ln (exp (at2 input 0 (Z.to_nat target))
             / rsum (cols input) (fun c => exp (at2 input 0 c)))))
  else Raised (Model IndexError).

(** One pass of the inner loop up to the loss:
    [criterion(model(input_seq)[:, -1, :], target)]. *)
Definition training_loss (model : SimpleLLM.t) (input_seq : list Z) (target : Z)
    : outcome loss_value :=
  match input_seq with
  | [] => Raised (Model RuntimeError)
  | _ :: _ =>
      match SimpleLLM.forward model (tensor_unsqueeze input_seq) with
      | Raise e => Raised (Model e)
      | Ok output =>
          match select_last output with
          | Raise e => Raised (Model e)
          | Ok last => cross_entropy last target
          end
      end
  end.

End Cells.

(** ** Reordering the positions of a batch *)

Module Reorder.

(** Position [i] of the result holds position [sigma i] of [x]. *)
Definition permute_positions (sigma : nat -> nat) (x : Tensor) : Tensor :=
  mkTensor (dim0 x) (dim1 x) (dim2 x) (fun n i k => at3 x n (sigma i) k).

(** [sigma] permutes the positions below [n]. *)
Definition permutes (n : nat) (sigma : nat -> nat) : Prop :=
  (forall i, (i < n)%nat -> (sigma i < n)%nat)
  /\ (forall i j, (i < n)%nat -> (j < n)%nat -> sigma i = sigma j -> i = j).

Definition swap01 (i : nat) : nat :=
  match i with
  | O => 1%nat
  | S O => O
  | _ => i
  end.

End Reorder.

(** ** More concrete objects *)

Module Samples.
Local Open Scope R_scope.

(** A layer that copies its input: identity weights, no bias. *)
Definition identity_linear (d : nat) : Linear.t :=
  Linear.mk d d (fun o k => if (o =? k)%nat then 1 else 0) (fun _ => 0).

Definition copy_attn (d : nat) : SelfAttention.t :=
  SelfAttention.mk (identity_linear d) (identity_linear d) (identity_linear d).

(** A batch of one sequence whose entry at position [i], feature [k] is
    [i + k]. *)
Definition ramp (l d : nat) : Tensor :=
  mkTensor 1 l d (fun _ i k => INR (i + k)).

Definition ids (rows cols : nat) (id : Z) : LongTensor :=
  mkLongTensor rows cols (fun _ _ => id).

(** The model of the training cell's sizes with all-zero learned entries:
    seven words, sixteen features, thirty-two hidden units, two blocks. *)
Definition cell_model : SimpleLLM.t :=
  SimpleLLM.mk (Embedding.mk 7 16 (fun _ _ => 0))
               (Demo.encoding 16 SimpleLLM.default_max_seq_len)
               [Demo.block 16 32; Demo.block 16 32]
               (Demo.zero_linear 16 7).

(** A model of two words whose output layer ignores its input and
    prefers word 1: zero weights, bias 0 for word 0 and 2 for word 1. *)
Definition prefers_one : Linear.t :=
  Linear.mk 2 2 (fun _ _ => 0) (fun o => if (o =? 1)%nat then 2 else 0).

Definition biased_model : SimpleLLM.t :=
  SimpleLLM.mk (Embedding.mk 2 2 (fun _ _ => 0))
               (Demo.encoding 2 SimpleLLM.default_max_seq_len)
               [Demo.block 2 2]
               prefers_one.


End Samples.

(** ** Models and tensors that hold the same numbers

    A tensor is its shape and the entries inside the shape; a module is
    its sizes and the entries of its parameters and buffers. *)

Module Agree.

Definition tensors (a b : Tensor) : Prop :=
  shape a = shape b
  /\ forall n i k, (n < dim0 a)%nat -> (i < dim1 a)%nat -> (k < dim2 a)%nat ->
       at3 a n i k = at3 b n i k.

Definition ids (x y : LongTensor) : Prop :=
  ldim0 x = ldim0 y
  /\ ldim1 x = ldim1 y
  /\ forall n i, (n < ldim0 x)%nat -> (i < ldim1 x)%nat -> lat x n i = lat y n i.

Definition linear (l l' : Linear.t) : Prop :=
  Linear.in_features l = Linear.in_features l'
  /\ Linear.out_features l = Linear.out_features l'
  /\ (forall o k, (o < Linear.out_features l)%nat -> (k < Linear.in_features l)%nat ->
        Linear.weight l o k = Linear.weight l' o k)
  /\ (forall o, (o < Linear.out_features l)%nat -> Linear.bias l o = Linear.bias l' o).

Definition layer_norm (l l' : LayerNorm.t) : Prop :=
  LayerNorm.normalized_shape l = LayerNorm.normalized_shape l'
  /\ (forall k, (k < LayerNorm.normalized_shape l)%nat ->
        LayerNorm.weight l k = LayerNorm.weight l' k)
  /\ (forall k, (k < LayerNorm.normalized_shape l)%nat ->
        LayerNorm.bias l k = LayerNorm.bias l' k).

Definition embedding (e e' : Embedding.t) : Prop :=
  Embedding.num_embeddings e = Embedding.num_embeddings e'
  /\ Embedding.embedding_dim e = Embedding.embedding_dim e'
  /\ (forall r k, (r < Embedding.num_embeddings e)%nat ->
        (k < Embedding.embedding_dim e)%nat ->
        Embedding.weight e r k = Embedding.weight e' r k).

Definition positional (p p' : PositionalEncoding.t) : Prop :=
  PositionalEncoding.embedding_dim p = PositionalEncoding.embedding_dim p'
  /\ tensors (PositionalEncoding.pe p) (PositionalEncoding.pe p').

Definition attention (a a' : SelfAttention.t) : Prop :=
  linear (SelfAttention.query a) (SelfAttention.query a')
  /\ linear (SelfAttention.key a) (SelfAttention.key a')
  /\ linear (SelfAttention.value a) (SelfAttention.value a').

Definition block (b b' : TransformerBlock.t) : Prop :=
  attention (TransformerBlock.attention b) (TransformerBlock.attention b')
  /\ linear (TransformerBlock.ff_in b) (TransformerBlock.ff_in b')
  /\ linear (TransformerBlock.ff_out b) (TransformerBlock.ff_out b')
  /\ layer_norm (TransformerBlock.norm1 b) (TransformerBlock.norm1 b')
  /\ layer_norm (TransformerBlock.norm2 b) (TransformerBlock.norm2 b').

Definition model (m m' : SimpleLLM.t) : Prop :=
  embedding (SimpleLLM.embedding m) (SimpleLLM.embedding m')
  /\ positional (SimpleLLM.positional_encoding m) (SimpleLLM.positional_encoding m')
  /\ Forall2 block (SimpleLLM.transformer_blocks m) (SimpleLLM.transformer_blocks m')
  /\ linear (SimpleLLM.output m) (SimpleLLM.output m').


End Agree.

(** * Properties *)

(** ** Tokenizer *)

Section TokenizerFacts.
Import Tokenizer.

Lemma flush_nil_iff cur : flush cur = [] <-> cur = [].
Proof. destruct cur; simpl; split; congruence. Qed.

Lemma split_from_nil_iff text : forall cur,
  split_from cur text = [] <-> cur = [] /\ blank text = true.
Proof.
  induction text as [|c rest IH]; intros cur; simpl.
  - rewrite flush_nil_iff. unfold blank. simpl. tauto.
  - unfold blank in *. simpl. destruct (isspace c); simpl.
    + split.
      * intros H. apply app_eq_nil in H as [H1 H2].
        apply flush_nil_iff in H1. apply IH in H2. tauto.
      * intros [-> H]. simpl. apply IH. tauto.
    + rewrite IH. split; [intros [? _]; discriminate | intros [_ ?]; discriminate].
Qed.

Lemma split_nil_iff text : split text = [] <-> blank text = true.
Proof. unfold split. rewrite split_from_nil_iff. tauto. Qed.

Lemma append_string_of_list (l1 : list ascii) (c : ascii) (s : string) :
  String.append (string_of_list_ascii (l1 ++ [c])) s
  = String.append (string_of_list_ascii l1) (String c s).
Proof.
  induction l1 as [|a l1 IH]; [reflexivity|].
  change (String a (String.append (string_of_list_ascii (l1 ++ [c])) s)
          = String a (String.append (string_of_list_ascii l1) (String c s))).
  f_equal. exact IH.
Qed.

Lemma list_ascii_of_rev (cur : list ascii) :
  list_ascii_of_string (string_of_rev cur) = rev cur.
Proof. apply list_ascii_of_string_of_list_ascii. Qed.

Lemma length_string_of_list (l : list ascii) :
  String.length (string_of_list_ascii l) = List.length l.
Proof. induction l as [|a l IH]; simpl; [reflexivity|]. rewrite IH. reflexivity. Qed.

Lemma is_word_of_rev (c : ascii) (cur : list ascii) :
  forallb (fun a => negb (isspace a)) (c :: cur) = true ->
  is_word (string_of_rev (c :: cur)) = true.
Proof.
  intros H. unfold is_word. rewrite list_ascii_of_rev.
  unfold string_of_rev. rewrite length_string_of_list, length_rev.
  cbn [List.length Nat.eqb negb andb].
  apply forallb_forall. intros a Ha. rewrite forallb_forall in H.
  apply H, in_rev, Ha.
Qed.

Lemma splits_space (c : ascii) (text : string) (ws : list string) :
  isspace c = true -> splits text ws -> splits (String c text) ws.
Proof.
  intros Hc H. destruct H as [text Hb | gap w rest ws Hg Hw He Hs].
  - apply splits_blank. unfold blank in *. simpl. rewrite Hc. exact Hb.
  - apply (splits_word (String c gap) w rest ws); try assumption.
    unfold blank in *. simpl. rewrite Hc. exact Hg.
Qed.

(** The scan, started with the non-blank characters [cur] already read,
    splits the text that begins with them. *)
Lemma split_from_splits (text : string) : forall cur,
  forallb (fun a => negb (isspace a)) cur = true ->
  splits (String.append (string_of_rev cur) text) (split_from cur text).
Proof.
  induction text as [|c rest IH]; intros cur Hcur.
  - destruct cur as [|a cur]; cbn [split_from flush].
    + apply splits_blank. reflexivity.
    + apply (splits_word "" (string_of_rev (a :: cur)) "" []).
      * reflexivity.
      * apply is_word_of_rev, Hcur.
      * exact I.
      * apply splits_blank. reflexivity.
  - cbn [split_from]. destruct (isspace c) eqn:Hc.
    + assert (Hrest : splits (String c rest) (split_from [] rest)).
      { apply splits_space; [exact Hc|]. apply (IH []). reflexivity. }
      destruct cur as [|a cur]; cbn [flush app].
      * exact Hrest.
      * apply (splits_word "" (string_of_rev (a :: cur)) (String c rest)).
        -- reflexivity.
        -- apply is_word_of_rev, Hcur.
        -- exact Hc.
        -- exact Hrest.
    + specialize (IH (c :: cur)).
      unfold string_of_rev in *. cbn [rev] in IH.
      rewrite append_string_of_list in IH. apply IH.
      cbn [forallb]. rewrite Hc. exact Hcur.
Qed.

Lemma split_splits (text : string) : splits text (split text).
Proof. apply (split_from_splits text []). reflexivity. Qed.

Lemma split_from_gap (gap text : string) :
  blank gap = true ->
  split_from [] (String.append gap text) = split_from [] text.
Proof.
  induction gap as [|c gap IH]; intros H; [reflexivity|].
  unfold blank in *. cbn [list_ascii_of_string forallb] in H.
  apply andb_prop in H as [Hc Hg].
  change (split_from [] (String c (String.append gap text)) = split_from [] text).
  cbn [split_from]. rewrite Hc. cbn [flush app]. apply IH, Hg.
Qed.

Lemma split_from_run (w rest : string) : forall cur,
  forallb (fun c => negb (isspace c)) (list_ascii_of_string w) = true ->
  split_from cur (String.append w rest)
  = split_from (rev (list_ascii_of_string w) ++ cur) rest.
Proof.
  induction w as [|a w IH]; intros cur H; [reflexivity|].
  cbn [list_ascii_of_string forallb] in H. apply andb_prop in H as [Ha Hw].
  change (split_from cur (String a (String.append w rest))
          = split_from (rev (a :: list_ascii_of_string w) ++ cur) rest).
  cbn [split_from rev]. apply negb_true_iff in Ha. rewrite Ha.
  rewrite IH by exact Hw. rewrite <- app_assoc. reflexivity.
Qed.

Lemma split_from_word_end (cur : list ascii) (rest : string) :
  cur <> [] -> word_end rest ->
  split_from cur rest = string_of_rev cur :: split_from [] rest.
Proof.
  intros Hcur Hend. destruct cur as [|a cur]; [congruence|].
  destruct rest as [|c rest]; [reflexivity|].
  cbn [word_end] in Hend. cbn [split_from]. rewrite Hend. reflexivity.
Qed.

(** [split] is the only way to split a text. *)
Lemma splits_unique (text : string) (ws : list string) :
  splits text ws -> ws = split text.
Proof.
  induction 1 as [text Hb | gap w rest ws Hg Hw He _ IH].
  - symmetry. apply split_nil_iff, Hb.
  - unfold split. rewrite split_from_gap by exact Hg.
    unfold is_word in Hw. apply andb_prop in Hw as [Hlen Hns].
    rewrite split_from_run by exact Hns. rewrite app_nil_r.
    rewrite split_from_word_end; [| |exact He].
    + unfold string_of_rev. rewrite rev_involutive, string_of_list_ascii_of_string.
      f_equal. exact IH.
    + destruct w; [discriminate|]. cbn [list_ascii_of_string rev].
      intros E. apply app_eq_nil in E as [_ E]. discriminate.
Qed.

Lemma comprehension_ok {A B} (f : A -> result B) (g : A -> B) xs :
  (forall x, In x xs -> f x = Ok (g x)) ->
  comprehension f xs = Ok (map g xs).
Proof.
  induction xs as [|x xs IH]; intros H; simpl; [reflexivity|].
  rewrite (H x) by (left; reflexivity). simpl.
  rewrite IH by (intros y Hy; apply H; right; exact Hy). reflexivity.
Qed.

Lemma comprehension_raise {A B} (f : A -> result B) e x xs :
  f x = Raise e -> comprehension f (x :: xs) = Raise e.
Proof. intros H. simpl. rewrite H. reflexivity. Qed.

Lemma lookup_word_ok (vocab : gmap string Z) unk word :
  vocab !! "<UNK>" = Some unk ->
  lookup_word vocab word = Ok (default unk (vocab !! word)).
Proof.
  intros H. unfold lookup_word, getitem, get. rewrite H. simpl.
  destruct (vocab !! word); reflexivity.
Qed.

Lemma lookup_word_raise (vocab : gmap string Z) word :
  vocab !! "<UNK>" = None ->
  lookup_word vocab word = Raise (KeyError "<UNK>").
Proof. intros H. unfold lookup_word, getitem. rewrite H. reflexivity. Qed.

(** C3: [split text] is the one list of whitespace-separated words of the
    text; with ["<UNK>"] in the vocabulary, [tokenize] returns, in order,
    the id of each of these words, the ["<UNK>"] id standing in for a word
    the vocabulary lacks, and does not raise; whenever it does raise, the
    ["<UNK>"] entry is the missing key. *)
Theorem tokenize_unknown_fallback (text : string) (vocab : gmap string Z) :
  (splits text (split text)
   /\ forall words, splits text words -> words = split text)
  /\ (forall unk, vocab !! "<UNK>" = Some unk ->
        tokenize text vocab
        = Ok (map (fun word => default unk (vocab !! word)) (split text)))
  /\ (forall e, tokenize text vocab = Raise e ->
        vocab !! "<UNK>" = None /\ e = KeyError "<UNK>").
Proof.
  split; [split; [apply split_splits | apply splits_unique]|].
  split.
  - intros unk H. unfold tokenize. apply comprehension_ok.
    intros w _. apply lookup_word_ok, H.
  - intros e H. unfold tokenize in H.
    destruct (vocab !! "<UNK>") as [unk|] eqn:Hu.
    + rewrite (comprehension_ok _ (fun word => default unk (vocab !! word))) in H.
      * discriminate.
      * intros w _. apply lookup_word_ok, Hu.
    + split; [reflexivity|].
      destruct (split text) as [|w ws]; [discriminate|].
      rewrite (comprehension_raise _ (KeyError "<UNK>")) in H
        by (apply lookup_word_raise, Hu).
      congruence.
Qed.

Lemma tokenize_unknown_fallback_witness :
  tokenize "hello xyz world" Tokenizer.vocab = Ok [0; 6; 1]%Z.
Proof.
  exact (proj1 (proj2 (tokenize_unknown_fallback "hello xyz world" Tokenizer.vocab))
               6%Z eq_refl).
Defined.

(** C10: without ["<UNK>"] in the vocabulary, [tokenize] raises the key
    error for ["<UNK>"] on every text that has a word, whether or not the
    words are in the vocabulary; on an empty or all-whitespace text it
    returns the empty list, with or without the ["<UNK>"] entry. *)
Theorem tokenize_unk_evaluated_per_word (text : string) (vocab : gmap string Z) :
  (vocab !! "<UNK>" = None -> blank text = false ->
     tokenize text vocab = Raise (KeyError "<UNK>"))
  /\ (blank text = true -> tokenize text vocab = Ok []).
Proof.
  split.
  - intros Hu Hb. unfold tokenize.
    destruct (split text) as [|w ws] eqn:Hs.
    + apply split_nil_iff in Hs. congruence.
    + apply comprehension_raise, lookup_word_raise, Hu.
  - intros Hb. unfold tokenize. apply split_nil_iff in Hb. rewrite Hb.
    reflexivity.
Qed.

Lemma tokenize_unk_evaluated_per_word_witness :
  tokenize "hello world" (<["hello" := 0%Z]> (<["world" := 1%Z]> ∅))
  = Raise (KeyError "<UNK>")
  /\ tokenize "  " (<["hello" := 0%Z]> (<["world" := 1%Z]> ∅)) = Ok [].
Proof.
  split.
  - apply (proj1 (tokenize_unk_evaluated_per_word "hello world"
                    (<["hello" := 0%Z]> (<["world" := 1%Z]> ∅))));
      vm_compute; reflexivity.
  - apply (proj2 (tokenize_unk_evaluated_per_word "  "
                    (<["hello" := 0%Z]> (<["world" := 1%Z]> ∅))));
      vm_compute; reflexivity.
Defined.

End TokenizerFacts.

Example split_demo :
  Tokenizer.split "  hello   world " = ["hello"; "world"].
Proof. reflexivity. Qed.

Example split_tabs_newlines :
  Tokenizer.split (String (ascii_of_nat 9) "a" ++ String (ascii_of_nat 10) "b")%string
  = ["a"; "b"].
Proof. reflexivity. Qed.

Example split_blank : Tokenizer.split "   " = [].
Proof. reflexivity. Qed.

Example tokenize_demo :
  Tokenizer.tokenize "hello world what are you" Tokenizer.vocab
  = Ok [0; 1; 2; 3; 4]%Z.
Proof. vm_compute. reflexivity. Qed.

Example tokenize_unknown :
  Tokenizer.tokenize "  hello xyz " Tokenizer.vocab = Ok [0; 6]%Z.
Proof. vm_compute. reflexivity. Qed.

(** ** Finite sums *)

Section Sums.
Local Open Scope R_scope.

Lemma rsum_ext n (f g : nat -> R) :
  (forall k, (k < n)%nat -> f k = g k) -> rsum n f = rsum n g.
Proof.
  induction n as [|n IH]; intros H; simpl; [reflexivity|].
  rewrite IH by (intros k Hk; apply H; lia).
  rewrite (H n) by lia. reflexivity.
Qed.

Lemma rsum_scal_r n (f : nat -> R) c :
  rsum n (fun k => f k * c) = rsum n f * c.
Proof. induction n as [|n IH]; simpl; [ring|]. rewrite IH. ring. Qed.

Lemma rsum_div n (f : nat -> R) c :
  rsum n (fun k => f k / c) = rsum n f / c.
Proof. unfold Rdiv. apply rsum_scal_r. Qed.

Lemma rsum_plus n (f g : nat -> R) :
  rsum n (fun k => f k + g k) = rsum n f + rsum n g.
Proof. induction n as [|n IH]; simpl; [ring|]. rewrite IH. ring. Qed.

Lemma rsum_minus n (f g : nat -> R) :
  rsum n (fun k => f k - g k) = rsum n f - rsum n g.
Proof. induction n as [|n IH]; simpl; [ring|]. rewrite IH. ring. Qed.

Lemma rsum_const n c : rsum n (fun _ => c) = INR n * c.
Proof.
  induction n as [|n IH]; [simpl; ring|].
  rewrite S_INR. simpl. rewrite IH. ring.
Qed.

Lemma rsum_nonneg n (f : nat -> R) :
  (forall k, (k < n)%nat -> 0 <= f k) -> 0 <= rsum n f.
Proof.
  induction n as [|n IH]; intros H; simpl; [lra|].
  assert (0 <= rsum n f) by (apply IH; intros k Hk; apply H; lia).
  assert (0 <= f n) by (apply H; lia). lra.
Qed.

Lemma rsum_pos n (f : nat -> R) :
  (0 < n)%nat -> (forall k, (k < n)%nat -> 0 < f k) -> 0 < rsum n f.
Proof.
  intros Hn H. destruct n as [|n]; [lia|]. simpl.
  assert (0 <= rsum n f).
  { apply rsum_nonneg. intros k Hk. apply Rlt_le, H. lia. }
  assert (0 < f n) by (apply H; lia). lra.
Qed.

Lemma rsum_exp_pos n (f : nat -> R) : (0 < n)%nat -> 0 < rsum n (fun k => exp (f k)).
Proof. intros Hn. apply rsum_pos; [exact Hn|]. intros k _. apply exp_pos. Qed.

End Sums.

(** ** Self-attention *)

Section SelfAttentionFacts.
Local Open Scope R_scope.

Lemma Linear_forward_ok (l : Linear.t) (x : Tensor) :
  dim2 x = Linear.in_features l ->
  Linear.forward l x
  = Ok (mkTensor (dim0 x) (dim1 x) (Linear.out_features l) (fun n i o =>
          rsum (Linear.in_features l) (fun k => at3 x n i k * Linear.weight l o k)
          + Linear.bias l o)).
Proof.
  intros H. unfold Linear.forward. rewrite H, Nat.eqb_refl. reflexivity.
Qed.

Lemma Linear_forward_shape (l : Linear.t) (x y : Tensor) :
  Linear.forward l x = Ok y ->
  dim2 x = Linear.in_features l
  /\ dim0 y = dim0 x /\ dim1 y = dim1 x /\ dim2 y = Linear.out_features l.
Proof.
  unfold Linear.forward. destruct (dim2 x =? Linear.in_features l)%nat eqn:E.
  - intros [= <-]. apply Nat.eqb_eq in E. simpl. auto.
  - discriminate.
Qed.

Lemma bmm_ok (a b : Tensor) :
  dim0 a = dim0 b -> dim2 a = dim1 b ->
  bmm a b = Ok (mkTensor (dim0 a) (dim1 a) (dim2 b) (fun n i j =>
                 rsum (dim2 a) (fun k => at3 a n i k * at3 b n k j))).
Proof.
  intros H0 H1. unfold bmm. rewrite H0, H1, !Nat.eqb_refl. reflexivity.
Qed.

(** Every row of a softmax over a non-empty axis sums to one. *)
Lemma softmax_row_sum (t : Tensor) n i :
  (0 < dim2 t)%nat -> rsum (dim2 t) (at3 (softmax t) n i) = 1.
Proof.
  intros H. unfold softmax. simpl. rewrite rsum_div.
  apply Rdiv_diag. apply Rgt_not_eq, Rlt_gt, rsum_exp_pos, H.
Qed.

Lemma softmax_pos (t : Tensor) n i j :
  (0 < dim2 t)%nat -> 0 < at3 (softmax t) n i j.
Proof.
  intros H. unfold softmax. simpl. apply Rdiv_lt_0_compat.
  - apply exp_pos.
  - apply rsum_exp_pos, H.
Qed.

(** The source's run of [forward], step by step, on an input whose last
    axis matches the layer. *)
Lemma SelfAttention_forward_run (sa : SelfAttention.t) (d : nat) (x : Tensor) :
  SelfAttention.constructed d sa -> dim2 x = d ->
  exists q k v w,
    Linear.forward (SelfAttention.query sa) x = Ok q
    /\ Linear.forward (SelfAttention.key sa) x = Ok k
    /\ Linear.forward (SelfAttention.value sa) x = Ok v
    /\ SelfAttention.attention_weights x q k = Ok w
    /\ SelfAttention.forward sa x = bmm w v
    /\ w = softmax (div_scalar
                      (mkTensor (dim0 x) (dim1 x) (dim1 x) (fun n i j =>
                         rsum d (fun c => at3 q n i c * at3 k n j c)))
                      (sqrt (INR d)))
    /\ shape q = (dim0 x, dim1 x, d)
    /\ shape k = (dim0 x, dim1 x, d)
    /\ shape v = (dim0 x, dim1 x, d).
Proof.
  intros ([Hqi Hqo] & [Hki Hko] & [Hvi Hvo]) Hx.
  destruct sa as [[qi qo qw qb] [ki ko kw kb] [vi vo vw vb]].
  destruct x as [B L D xa]. simpl in *. subst.
  unfold SelfAttention.forward, SelfAttention.attention_weights, Linear.forward.
  simpl. rewrite !Nat.eqb_refl. simpl.
  do 4 eexists.
  split; [reflexivity|]. split; [reflexivity|]. split; [reflexivity|].
  unfold bmm. simpl. rewrite !Nat.eqb_refl. simpl.
  split; [reflexivity|]. repeat split; reflexivity.
Qed.

(** C1: on a non-empty sequence, [forward] is the composition the
    specification describes: three projections Q, K and V, the scores
    Q . K^T scaled by 1/sqrt D, a softmax over every row, and the product
    with V. No entry of the weight matrix is masked: at every pair (i, j),
    also those with j > i, the weight is the softmax of the scaled score,
    a positive number. *)
Theorem attend_is_scaled_dot_product
    (sa : SelfAttention.t) (d : nat) (x : Tensor) :
  SelfAttention.constructed d sa -> dim2 x = d ->
  (0 < d)%nat -> (0 < dim1 x)%nat ->
  exists q k w y,
    Linear.forward (SelfAttention.query sa) x = Ok q
    /\ Linear.forward (SelfAttention.key sa) x = Ok k
    /\ SelfAttention.attention_weights x q k = Ok w
    /\ SelfAttention.forward sa x = Ok y
    /\ shape y = shape x
    /\ (forall n i j, (n < dim0 x)%nat -> (i < dim1 x)%nat -> (j < dim1 x)%nat ->
          at3 w n i j = at2 (Spec.weights sa (Spec.batch_item x n)) i j
          /\ 0 < at3 w n i j)
    /\ (forall n i c, (n < dim0 x)%nat -> (i < dim1 x)%nat -> (c < d)%nat ->
          at3 y n i c = at2 (Spec.attend sa (Spec.batch_item x n)) i c).
Proof.
  intros Hsa Hx Hd HL.
  destruct (SelfAttention_forward_run sa d x Hsa Hx)
    as (q & k & v & w & Hq & Hk & Hv & Hw & Hf & Hweq & Hsq & Hsk & Hsv).
  assert (Hwsh : shape w = (dim0 x, dim1 x, dim1 x)) by (rewrite Hweq; reflexivity).
  injection Hwsh as Hw0 Hw1 Hw2. injection Hsv as Hv0 Hv1 Hv2.
  rewrite bmm_ok in Hf by congruence.
  exists q, k, w. eexists. split; [exact Hq|]. split; [exact Hk|].
  split; [exact Hw|]. split; [exact Hf|].
  assert (Hweights : forall n i j,
            at3 w n i j = at2 (Spec.weights sa (Spec.batch_item x n)) i j).
  { intros n i j. rewrite Hweq.
    destruct Hsa as ([Hqi Hqo] & [Hki Hko] & _).
    rewrite (Linear_forward_ok _ _ (eq_trans Hx (eq_sym Hqi))) in Hq.
    rewrite (Linear_forward_ok _ _ (eq_trans Hx (eq_sym Hki))) in Hk.
    injection Hq as <-. injection Hk as <-.
    unfold Spec.weights, Spec.row_softmax, Spec.scaled_scores, Spec.scale,
      Spec.matmul, Spec.transpose, Spec.project, Spec.batch_item, softmax,
      div_scalar. simpl.
    rewrite Hqi, Hki, Hqo, Hx.
    assert (E : forall a : R, a / sqrt (INR d) = 1 / sqrt (INR d) * a)
      by (intros a; unfold Rdiv; ring).
    rewrite E. f_equal. apply rsum_ext. intros j' _. rewrite E. reflexivity. }
  split; [unfold shape; simpl; congruence|]. split.
  - intros n i j _ _ _. split; [apply Hweights|].
    rewrite Hweq. apply softmax_pos. simpl. exact HL.
  - intros n i c _ _ _. simpl. rewrite Hw2.
    unfold Spec.attend, Spec.matmul. simpl.
    apply rsum_ext. intros j _. rewrite Hweights. f_equal.
    destruct Hsa as (_ & _ & [Hvi Hvo]).
    rewrite (Linear_forward_ok _ _ (eq_trans Hx (eq_sym Hvi))) in Hv.
    injection Hv as <-. simpl. rewrite Hvi, Hx. reflexivity.
Qed.

Lemma attend_is_scaled_dot_product_witness :
  exists q k w y,
    Linear.forward (SelfAttention.query (Demo.attn 2)) (Demo.const_tensor 1 3 2 1) = Ok q
    /\ Linear.forward (SelfAttention.key (Demo.attn 2)) (Demo.const_tensor 1 3 2 1) = Ok k
    /\ SelfAttention.attention_weights (Demo.const_tensor 1 3 2 1) q k = Ok w
    /\ SelfAttention.forward (Demo.attn 2) (Demo.const_tensor 1 3 2 1) = Ok y
    /\ shape y = shape (Demo.const_tensor 1 3 2 1)
    /\ (forall n i j, (n < 1)%nat -> (i < 3)%nat -> (j < 3)%nat ->
          at3 w n i j
          = at2 (Spec.weights (Demo.attn 2)
                   (Spec.batch_item (Demo.const_tensor 1 3 2 1) n)) i j
          /\ 0 < at3 w n i j)
    /\ (forall n i c, (n < 1)%nat -> (i < 3)%nat -> (c < 2)%nat ->
          at3 y n i c
          = at2 (Spec.attend (Demo.attn 2)
                   (Spec.batch_item (Demo.const_tensor 1 3 2 1) n)) i c).
Proof.
  apply (attend_is_scaled_dot_product (Demo.attn 2) 2 (Demo.const_tensor 1 3 2 1)).
  - repeat split.
  - reflexivity.
  - lia.
  - simpl. lia.
Defined.

(** C7: on a non-empty sequence [forward] returns the product of its
    attention-weight matrix with the value projection, a tensor of the
    shape of the input; every entry of that weight matrix is non-negative
    and every row of it sums to one, hence to within 1e-5 of one. *)
Theorem attention_weights_are_distributions
    (sa : SelfAttention.t) (d : nat) (x : Tensor) :
  SelfAttention.constructed d sa -> dim2 x = d ->
  (0 < d)%nat -> (0 < dim1 x)%nat ->
  exists q k v w y,
    Linear.forward (SelfAttention.query sa) x = Ok q
    /\ Linear.forward (SelfAttention.key sa) x = Ok k
    /\ Linear.forward (SelfAttention.value sa) x = Ok v
    /\ SelfAttention.attention_weights x q k = Ok w
    /\ bmm w v = Ok y
    /\ SelfAttention.forward sa x = Ok y
    /\ (forall n i c, at3 y n i c
                      = rsum (dim1 x) (fun j => at3 w n i j * at3 v n j c))
    /\ shape y = shape x
    /\ shape w = (dim0 x, dim1 x, dim1 x)
    /\ (forall n i j, (n < dim0 x)%nat -> (i < dim1 x)%nat -> (j < dim1 x)%nat ->
          0 <= at3 w n i j)
    /\ (forall n i, (n < dim0 x)%nat -> (i < dim1 x)%nat ->
          rsum (dim1 x) (at3 w n i) = 1
          /\ Rabs (rsum (dim1 x) (at3 w n i) - 1) <= 1 / 100000).
Proof.
  intros Hsa Hx Hd HL.
  destruct (SelfAttention_forward_run sa d x Hsa Hx)
    as (q & k & v & w & Hq & Hk & Hv & Hw & Hf & Hweq & Hsq & Hsk & Hsv).
  assert (Hwsh : shape w = (dim0 x, dim1 x, dim1 x)) by (rewrite Hweq; reflexivity).
  pose proof Hwsh as Hwsh'.
  injection Hwsh' as Hw0 Hw1 Hw2. injection Hsv as Hv0 Hv1 Hv2.
  assert (Hbmm : bmm w v
                 = Ok (mkTensor (dim0 w) (dim1 w) (dim2 v) (fun n i j =>
                         rsum (dim2 w) (fun k0 => at3 w n i k0 * at3 v n k0 j))))
    by (apply bmm_ok; congruence).
  rewrite Hbmm in Hf.
  exists q, k, v, w. eexists. split; [exact Hq|]. split; [exact Hk|].
  split; [exact Hv|]. split; [exact Hw|]. split; [exact Hbmm|]. split; [exact Hf|].
  split; [intros n i c; cbn [at3]; rewrite Hw2; reflexivity|].
  split; [unfold shape; simpl; congruence|]. split; [exact Hwsh|].
  assert (Hsum : forall n i, rsum (dim1 x) (at3 w n i) = 1).
  { intros n i. rewrite Hweq.
    apply (softmax_row_sum
             (div_scalar
                (mkTensor (dim0 x) (dim1 x) (dim1 x) (fun n i j =>
                   rsum d (fun c => at3 q n i c * at3 k n j c)))
                (sqrt (INR d))) n i).
    simpl. exact HL. }
  split.
  - intros n i j _ _ _. rewrite Hweq. apply Rlt_le, softmax_pos. simpl. exact HL.
  - intros n i _ _. split; [apply Hsum|].
    rewrite Hsum. replace (1 - 1) with 0 by ring. rewrite Rabs_R0. lra.
Qed.

Lemma attention_weights_are_distributions_witness :
  exists q k v w y,
    Linear.forward (SelfAttention.query (Demo.attn 2)) (Demo.const_tensor 1 3 2 1) = Ok q
    /\ Linear.forward (SelfAttention.key (Demo.attn 2)) (Demo.const_tensor 1 3 2 1) = Ok k
    /\ Linear.forward (SelfAttention.value (Demo.attn 2)) (Demo.const_tensor 1 3 2 1) = Ok v
    /\ SelfAttention.attention_weights (Demo.const_tensor 1 3 2 1) q k = Ok w
    /\ bmm w v = Ok y
    /\ SelfAttention.forward (Demo.attn 2) (Demo.const_tensor 1 3 2 1) = Ok y
    /\ (forall n i c, at3 y n i c = rsum 3 (fun j => at3 w n i j * at3 v n j c))
    /\ shape y = shape (Demo.const_tensor 1 3 2 1)
    /\ shape w = (1%nat, 3%nat, 3%nat)
    /\ (forall n i j, (n < 1)%nat -> (i < 3)%nat -> (j < 3)%nat -> 0 <= at3 w n i j)
    /\ (forall n i, (n < 1)%nat -> (i < 3)%nat ->
          rsum 3 (at3 w n i) = 1
          /\ Rabs (rsum 3 (at3 w n i) - 1) <= 1 / 100000).
Proof.
  apply (attention_weights_are_distributions (Demo.attn 2) 2
           (Demo.const_tensor 1 3 2 1)).
  - repeat split.
  - reflexivity.
  - lia.
  - simpl. lia.
Defined.

(** C8, as the code has it: [forward] has no guard for an empty sequence;
    on an input of shape B x 0 x D it raises nothing and returns the empty
    B x 0 x D tensor. *)
Theorem attend_empty_sequence_returns
    (sa : SelfAttention.t) (d : nat) (x : Tensor) :
  SelfAttention.constructed d sa -> dim2 x = d -> dim1 x = 0%nat ->
  exists y, SelfAttention.forward sa x = Ok y /\ shape y = (dim0 x, 0%nat, d).
Proof.
  intros Hsa Hx HL.
  destruct (SelfAttention_forward_run sa d x Hsa Hx)
    as (q & k & v & w & Hq & Hk & Hv & Hw & Hf & Hweq & Hsq & Hsk & Hsv).
  assert (Hwsh : shape w = (dim0 x, dim1 x, dim1 x)) by (rewrite Hweq; reflexivity).
  injection Hwsh as Hw0 Hw1 Hw2. injection Hsv as Hv0 Hv1 Hv2.
  rewrite bmm_ok in Hf by congruence.
  eexists. split; [exact Hf|]. unfold shape. simpl. congruence.
Qed.

Lemma attend_empty_sequence_returns_witness :
  exists y, SelfAttention.forward (Demo.attn 2) (Demo.const_tensor 1 0 2 0) = Ok y
            /\ shape y = (1%nat, 0%nat, 2%nat).
Proof.
  apply (attend_empty_sequence_returns (Demo.attn 2) 2 (Demo.const_tensor 1 0 2 0)).
  - repeat split.
  - reflexivity.
  - reflexivity.
Defined.

(** C8 as stated fails: the call on an empty sequence is not an error. *)
Lemma attend_empty_sequence_no_error :
  dim1 (Demo.const_tensor 1 0 2 0) = 0%nat
  /\ SelfAttention.constructed 2 (Demo.attn 2)
  /\ is_ok (SelfAttention.forward (Demo.attn 2) (Demo.const_tensor 1 0 2 0)) = true
  /\ ~ (exists e, SelfAttention.forward (Demo.attn 2) (Demo.const_tensor 1 0 2 0)
                  = Raise e).
Proof.
  split; [reflexivity|]. split; [repeat split|].
  split; [reflexivity|]. intros [e H]. discriminate H.
Qed.

End SelfAttentionFacts.

(** ** Positional encoding *)

Section PositionalEncodingFacts.
Local Open Scope R_scope.
Import PositionalEncoding.

Lemma expandable_refl a : expandable a a = true.
Proof. unfold expandable. rewrite Nat.eqb_refl. reflexivity. Qed.

Lemma bidx_lt d i : (i < d)%nat -> bidx d i = i.
Proof.
  intros H. unfold bidx. destruct (d =? 1)%nat eqn:E; [|reflexivity].
  apply Nat.eqb_eq in E. lia.
Qed.

Lemma broadcast_dim_mismatch a b :
  a <> b -> a <> 1%nat -> b <> 1%nat -> broadcast_dim a b = Raise RuntimeError.
Proof.
  intros Hab Ha Hb. unfold broadcast_dim.
  apply Nat.eqb_neq in Hab, Ha, Hb. rewrite Hab, Ha, Hb. reflexivity.
Qed.

Lemma broadcast_dim_same a : broadcast_dim a a = Ok a.
Proof. unfold broadcast_dim. rewrite Nat.eqb_refl. reflexivity. Qed.

(** The angle of the source, [p * exp(2k * (-ln 10000 / D))], is the
    specification's [p / 10000^(2k/D)]. *)
Lemma angle_as_power (d p k : nat) :
  (0 < d)%nat ->
  INR p * div_term d k = INR p / Rpower 10000 (INR (2 * k) / INR d).
Proof.
  intros Hd. unfold div_term, Rpower, Rdiv.
  rewrite <- exp_Ropp. f_equal. f_equal.
  assert (INR d <> 0) by (apply not_0_INR; lia).
  field. exact H.
Qed.

(** What a successful construction leaves in the buffer. *)
Lemma init_inv (d M : nat) (self : t) :
  init d M = Ok self ->
  (0 < d)%nat
  /\ embedding_dim self = d
  /\ shape (pe self) = (M, 1%nat, d)
  /\ forall p k, (p < M)%nat ->
       ((2 * k < d)%nat ->
          at3 (pe self) p 0 (2 * k) = sin (INR p * div_term d k))
       /\ ((2 * k + 1 < d)%nat ->
          at3 (pe self) p 0 (2 * k + 1) = cos (INR p * div_term d k)).
Proof.
  intros H. unfold init in H. destruct (d =? 0)%nat eqn:Ed; [discriminate|].
  apply Nat.eqb_neq in Ed.
  unfold setitem_stride2 in H.
  cbn -[Nat.leb Nat.div Nat.even Nat.sub strided_len] in H.
  rewrite !expandable_refl in H.
  cbn -[Nat.leb Nat.div Nat.even Nat.sub strided_len] in H.
  destruct (expandable (strided_len 0 d) (strided_len 1 d)) eqn:Ex;
    rewrite ?andb_false_r, ?andb_true_r, ?expandable_refl in H;
    cbn -[Nat.leb Nat.div Nat.even Nat.sub strided_len] in H; [|discriminate].
  injection H as <-.
  split; [lia|]. split; [reflexivity|]. split; [reflexivity|].
  intros p k Hp.
  assert (Hcols : forall j, (2 * j < d)%nat -> bidx (strided_len 0 d) j = j).
  { intros j Hj. apply bidx_lt. unfold strided_len.
    apply Nat.div_le_lower_bound; lia. }
  split; intros Hk.
  - assert (E1 : ((1 <=? 2 * k)%nat && Nat.even (2 * k - 1)) = false).
    { destruct k as [|k]; [reflexivity|].
      replace (2 * S k - 1)%nat with (S (2 * k)) by lia.
      rewrite Nat.even_succ, Nat.odd_mul. apply andb_false_r. }
    assert (E2 : Nat.even (2 * k - 0) = true)
      by (rewrite Nat.sub_0_r, Nat.even_mul; reflexivity).
    assert (E3 : ((2 * k - 0) / 2)%nat = k)
      by (rewrite Nat.sub_0_r, Nat.mul_comm, Nat.div_mul; [reflexivity|lia]).
    remember (2 * k)%nat as c eqn:Ec.
    change ((if (1 <=? c)%nat && Nat.even (c - 1)
             then cos (INR (bidx M p)
                       * div_term d (bidx (strided_len 0 d) ((c - 1) / 2)))
             else if Nat.even (c - 0)
                  then sin (INR (bidx M p)
                            * div_term d (bidx (strided_len 0 d) ((c - 0) / 2)))
                  else 0) = sin (INR p * div_term d k)).
    rewrite E1.
    rewrite E2, E3, (bidx_lt M p Hp), Hcols by lia. reflexivity.
  - assert (E1 : ((1 <=? 2 * k + 1)%nat && Nat.even (2 * k + 1 - 1)) = true).
    { replace (2 * k + 1 - 1)%nat with (2 * k)%nat by lia.
      rewrite Nat.even_mul. apply andb_true_intro. split; [|reflexivity].
      apply Nat.leb_le. lia. }
    assert (E3 : ((2 * k + 1 - 1) / 2)%nat = k).
    { replace (2 * k + 1 - 1)%nat with (k * 2)%nat by lia.
      apply Nat.div_mul. lia. }
    remember (2 * k + 1)%nat as c eqn:Ec.
    change ((if (1 <=? c)%nat && Nat.even (c - 1)
             then cos (INR (bidx M p)
                       * div_term d (bidx (strided_len 0 d) ((c - 1) / 2)))
             else if Nat.even (c - 0)
                  then sin (INR (bidx M p)
                            * div_term d (bidx (strided_len 0 d) ((c - 0) / 2)))
                  else 0) = cos (INR p * div_term d k)).
    rewrite E1, E3, (bidx_lt M p Hp), Hcols by lia. reflexivity.
Qed.

(** Construction succeeds for every positive even dimension. *)
Lemma init_even_ok (d M : nat) :
  (0 < d)%nat -> Nat.even d = true -> exists self, init d M = Ok self.
Proof.
  intros Hd He. unfold init.
  destruct (d =? 0)%nat eqn:Ed; [apply Nat.eqb_eq in Ed; lia|].
  unfold setitem_stride2.
  cbn -[Nat.leb Nat.div Nat.even Nat.sub strided_len].
  rewrite !expandable_refl.
  cbn -[Nat.leb Nat.div Nat.even Nat.sub strided_len].
  assert (E : strided_len 0 d = strided_len 1 d).
  { unfold strided_len. apply Nat.even_spec in He as [m ->].
    replace (2 * m - 0 + 1)%nat with (1 + m * 2)%nat by lia.
    replace (2 * m - 1 + 1)%nat with (0 + m * 2)%nat by lia.
    rewrite !Nat.div_add by lia. reflexivity. }
  rewrite E, !expandable_refl.
  cbn -[Nat.leb Nat.div Nat.even Nat.sub strided_len].
  eexists. reflexivity.
Qed.

(** Construction raises for a zero dimension and for every odd dimension
    from three on: the cosine columns are one fewer than the angles. *)
Lemma init_zero_raises (M : nat) : init 0 M = Raise ZeroDivisionError.
Proof. reflexivity. Qed.

Lemma init_odd_raises (d M : nat) :
  (3 <= d)%nat -> Nat.odd d = true -> init d M = Raise RuntimeError.
Proof.
  intros Hd Ho. unfold init.
  destruct (d =? 0)%nat eqn:Ed; [apply Nat.eqb_eq in Ed; lia|].
  unfold setitem_stride2.
  cbn -[Nat.leb Nat.div Nat.even Nat.sub strided_len].
  rewrite !expandable_refl.
  cbn -[Nat.leb Nat.div Nat.even Nat.sub strided_len].
  assert (E : expandable (strided_len 0 d) (strided_len 1 d) = false).
  { unfold expandable, strided_len. apply Nat.odd_spec in Ho as [m ->].
    replace (2 * m + 1 - 0 + 1)%nat with (0 + (m + 1) * 2)%nat by lia.
    replace (2 * m + 1 - 1 + 1)%nat with (1 + m * 2)%nat by lia.
    rewrite !Nat.div_add by lia.
    replace (0 / 2)%nat with 0%nat by reflexivity.
    replace (1 / 2)%nat with 0%nat by reflexivity.
    apply orb_false_intro; apply Nat.eqb_neq; lia. }
  rewrite E, andb_false_r. reflexivity.
Qed.

(** C5: in a constructed table, the entry for position [p] at the even
    index [2k] is [sin (p / 10000^(2k/D))] and at the odd index [2k+1] is
    [cos (p / 10000^(2k/D))]; the entries depend on the position and on D
    only, so two tables built for the same D agree wherever both are
    defined, whatever else the model holds. *)
Theorem positional_table_formula (d M p k : nat) (self : t) :
  init d M = Ok self -> (p < M)%nat ->
  shape (pe self) = (M, 1%nat, d)
  /\ ((2 * k < d)%nat ->
        at3 (pe self) p 0 (2 * k)
        = sin (INR p / Rpower 10000 (INR (2 * k) / INR d)))
  /\ ((2 * k + 1 < d)%nat ->
        at3 (pe self) p 0 (2 * k + 1)
        = cos (INR p / Rpower 10000 (INR (2 * k) / INR d)))
  /\ (forall M' self' c, init d M' = Ok self' -> (p < M')%nat -> (c < d)%nat ->
        at3 (pe self') p 0 c = at3 (pe self) p 0 c).
Proof.
  intros Hinit Hp.
  destruct (init_inv d M self Hinit) as (Hd & _ & Hsh & Hat).
  split; [exact Hsh|].
  destruct (Hat p k Hp) as [Heven Hodd].
  split; [|split].
  - intros Hk. rewrite (Heven Hk). f_equal. apply angle_as_power, Hd.
  - intros Hk. rewrite (Hodd Hk). f_equal. apply angle_as_power, Hd.
  - intros M' self' c Hinit' Hp' Hc.
    destruct (init_inv d M' self' Hinit') as (_ & _ & _ & Hat').
    destruct (Nat.Even_or_Odd c) as [[j ->]|[j ->]].
    + rewrite (proj1 (Hat' p j Hp') Hc), (proj1 (Hat p j Hp) Hc). reflexivity.
    + rewrite (proj2 (Hat' p j Hp') Hc), (proj2 (Hat p j Hp) Hc). reflexivity.
Qed.

Lemma positional_table_formula_witness :
  shape (pe (Demo.encoding 4 3)) = (3%nat, 1%nat, 4%nat)
  /\ ((2 * 1 < 4)%nat ->
        at3 (pe (Demo.encoding 4 3)) 2 0 (2 * 1)
        = sin (INR 2 / Rpower 10000 (INR (2 * 1) / INR 4)))
  /\ ((2 * 1 + 1 < 4)%nat ->
        at3 (pe (Demo.encoding 4 3)) 2 0 (2 * 1 + 1)
        = cos (INR 2 / Rpower 10000 (INR (2 * 1) / INR 4)))
  /\ (forall M' self' c, init 4 M' = Ok self' -> (2 < M')%nat -> (c < 4)%nat ->
        at3 (pe self') 2 0 c = at3 (pe (Demo.encoding 4 3)) 2 0 c).
Proof.
  apply (positional_table_formula 4 3 2 1 (Demo.encoding 4 3)).
  - reflexivity.
  - lia.
Defined.

(** The slice keeps at most [max_seq_len] rows; a longer input then meets
    a leading size that is neither its own nor one. *)
Lemma forward_leading_mismatch (self : t) (x : Tensor) :
  (2 <= max_seq_len self)%nat -> (max_seq_len self < dim0 x)%nat ->
  forward self x = Raise RuntimeError.
Proof.
  unfold max_seq_len. intros H2 HL.
  unfold forward, add, slice0. cbn [dim0 dim1 dim2].
  rewrite Nat.min_r by lia.
  rewrite (broadcast_dim_mismatch (dim0 x) (dim0 (pe self))) by lia.
  reflexivity.
Qed.

(** C2, as the code has it: there is no length check; the table is
    sliced to at most [max_seq_len] rows and the broadcasting addition
    then rejects the mismatched leading sizes. With a table of at least
    two rows, every longer input raises [RuntimeError], which differs from
    the index and key errors; no result is returned. *)
Theorem apply_beyond_max_seq_len_raises (self : t) (x : Tensor) :
  (2 <= max_seq_len self)%nat -> (max_seq_len self < dim0 x)%nat ->
  forward self x = Raise RuntimeError
  /\ RuntimeError <> IndexError
  /\ (forall key, RuntimeError <> KeyError key).
Proof.
  intros H2 HL. split; [|split; [discriminate|discriminate]].
  apply forward_leading_mismatch; assumption.
Qed.

Lemma apply_beyond_max_seq_len_raises_witness :
  forward (Demo.encoding 2 2) (Demo.const_tensor 3 1 2 0) = Raise RuntimeError
  /\ RuntimeError <> IndexError
  /\ (forall key, RuntimeError <> KeyError key).
Proof.
  apply (apply_beyond_max_seq_len_raises (Demo.encoding 2 2)
           (Demo.const_tensor 3 1 2 0)).
  - vm_compute. lia.
  - vm_compute. lia.
Defined.

(** C2 as stated fails: a table with a single row is broadcast over a
    sequence of two positions, both of which receive the row of position
    zero, and no error is raised. *)
Lemma apply_beyond_max_seq_len_broadcasts :
  init 2 1 = Ok (Demo.encoding 2 1)
  /\ max_seq_len (Demo.encoding 2 1) = 1%nat
  /\ dim0 (Demo.const_tensor 2 1 2 0) = 2%nat
  /\ exists y,
       forward (Demo.encoding 2 1) (Demo.const_tensor 2 1 2 0) = Ok y
       /\ shape y = (2%nat, 1%nat, 2%nat)
       /\ forall i c, at3 y i 0 c = 0 + at3 (pe (Demo.encoding 2 1)) 0 0 (bidx 2 c).
Proof.
  split; [reflexivity|]. split; [reflexivity|]. split; [reflexivity|].
  eexists. split; [reflexivity|]. split; [reflexivity|].
  intros i c. reflexivity.
Qed.

End PositionalEncodingFacts.

(** ** Layer normalisation and the transformer block *)

Section TransformerBlockFacts.
Local Open Scope R_scope.

Lemma eps_pos : 0 < LayerNorm.eps.
Proof. unfold LayerNorm.eps. lra. Qed.

Lemma var_nonneg n (v : nat -> R) : 0 <= LayerNorm.var n v.
Proof.
  unfold LayerNorm.var. destruct n as [|n].
  - simpl. unfold Rdiv. rewrite Rmult_0_l. lra.
  - apply Rmult_le_pos.
    + apply rsum_nonneg. intros k _. apply Rle_0_sqr.
    + apply Rlt_le, Rinv_0_lt_compat, lt_0_INR. lia.
Qed.

Lemma var_ext n (v v' : nat -> R) :
  (forall k, (k < n)%nat -> v k = v' k) -> LayerNorm.var n v = LayerNorm.var n v'.
Proof.
  intros H. unfold LayerNorm.var, LayerNorm.mean.
  rewrite (rsum_ext n v v' H). f_equal.
  apply rsum_ext. intros k Hk. rewrite (H k Hk). reflexivity.
Qed.

Lemma var_const n c : (0 < n)%nat -> LayerNorm.var n (fun _ => c) = 0.
Proof.
  intros Hn. unfold LayerNorm.var.
  assert (INR n <> 0) by (apply not_0_INR; lia).
  assert (Hm : LayerNorm.mean n (fun _ => c) = c).
  { unfold LayerNorm.mean. rewrite rsum_const. field. assumption. }
  rewrite Hm.
  rewrite (rsum_ext n (fun _ => (c - c) * (c - c)) (fun _ => 0)) by (intros; ring).
  rewrite rsum_const. field. assumption.
Qed.

Lemma sqrt_var_eps_pos n (v : nat -> R) : 0 < sqrt (LayerNorm.var n v + LayerNorm.eps).
Proof.
  apply sqrt_lt_R0. pose proof (var_nonneg n v). pose proof eps_pos. lra.
Qed.

(** The normalised vector has mean zero. *)
Lemma normalize_mean n (v : nat -> R) :
  (0 < n)%nat -> LayerNorm.mean n (LayerNorm.normalize n v) = 0.
Proof.
  intros Hn. unfold LayerNorm.normalize.
  set (s := sqrt (LayerNorm.var n v + LayerNorm.eps)).
  unfold LayerNorm.mean at 1. rewrite rsum_div, rsum_minus, rsum_const.
  unfold LayerNorm.mean.
  assert (INR n <> 0) by (apply not_0_INR; lia).
  assert (s <> 0) by (apply Rgt_not_eq, Rlt_gt, sqrt_var_eps_pos).
  field. split; assumption.
Qed.

(** Its variance is [var / (var + eps)]: below one, and zero for a
    constant vector. *)
Lemma normalize_var n (v : nat -> R) :
  (0 < n)%nat ->
  LayerNorm.var n (LayerNorm.normalize n v)
  = LayerNorm.var n v / (LayerNorm.var n v + LayerNorm.eps).
Proof.
  intros Hn. unfold LayerNorm.var at 1. rewrite (normalize_mean n v Hn).
  unfold LayerNorm.normalize.
  set (s := sqrt (LayerNorm.var n v + LayerNorm.eps)).
  assert (Hs : s * s = LayerNorm.var n v + LayerNorm.eps).
  { apply sqrt_sqrt. pose proof (var_nonneg n v). pose proof eps_pos. lra. }
  assert (Hs0 : s <> 0) by (apply Rgt_not_eq, Rlt_gt, sqrt_var_eps_pos).
  assert (Hn0 : INR n <> 0) by (apply not_0_INR; lia).
  rewrite (rsum_ext n _
             (fun k => (v k - LayerNorm.mean n v) * (v k - LayerNorm.mean n v) / (s * s))).
  2:{ intros k _. field. exact Hs0. }
  rewrite rsum_div, Hs.
  assert (HV : rsum n (fun k => (v k - LayerNorm.mean n v) * (v k - LayerNorm.mean n v))
               = LayerNorm.var n v * INR n).
  { unfold LayerNorm.var. field. exact Hn0. }
  rewrite HV.
  assert (LayerNorm.var n v + LayerNorm.eps <> 0).
  { pose proof (var_nonneg n v). pose proof eps_pos. lra. }
  field. split; assumption.
Qed.

Lemma normalize_var_lt_1 n (v : nat -> R) :
  (0 < n)%nat -> LayerNorm.var n (LayerNorm.normalize n v) < 1.
Proof.
  intros Hn. rewrite normalize_var by exact Hn.
  pose proof (var_nonneg n v). pose proof eps_pos.
  apply Rmult_lt_reg_r with (LayerNorm.var n v + LayerNorm.eps); [lra|].
  unfold Rdiv. rewrite Rmult_assoc, Rinv_l by lra. lra.
Qed.

Lemma add_same_shape (x y : Tensor) :
  shape x = shape y ->
  exists s, add x y = Ok s /\ Spec.residual x y s.
Proof.
  intros H. injection H as H0 H1 H2. unfold add.
  rewrite <- H0, <- H1, <- H2, !broadcast_dim_same. cbn [mbind result_bind].
  eexists. split; [reflexivity|]. split; [reflexivity|].
  intros n i k Hn Hi Hk. cbn [at3]. rewrite !bidx_lt by assumption. reflexivity.
Qed.

Lemma LayerNorm_forward_ok (l : LayerNorm.t) (s : Tensor) :
  dim2 s = LayerNorm.normalized_shape l ->
  exists y, LayerNorm.forward l s = Ok y /\ Spec.layer_normed l s y.
Proof.
  intros H. unfold LayerNorm.forward. rewrite H, Nat.eqb_refl.
  eexists. split; [reflexivity|]. split.
  - unfold shape. cbn [dim0 dim1 dim2]. rewrite H. reflexivity.
  - intros n i k _ _ _. cbn [at3]. rewrite H. reflexivity.
Qed.

Lemma feed_forward_ok (tb : TransformerBlock.t) (d hidden : nat) (x : Tensor) :
  Linear.constructed d hidden (TransformerBlock.ff_in tb) ->
  Linear.constructed hidden d (TransformerBlock.ff_out tb) ->
  dim2 x = d ->
  exists y, TransformerBlock.feed_forward tb x = Ok y
            /\ Spec.feed_forwarded (TransformerBlock.ff_in tb)
                                   (TransformerBlock.ff_out tb) x y.
Proof.
  intros [Hi1 Ho1] [Hi2 Ho2] Hx. unfold TransformerBlock.feed_forward.
  rewrite Linear_forward_ok by congruence. cbn [mbind result_bind].
  rewrite Linear_forward_ok by (cbn [relu dim2]; congruence).
  eexists. split; [reflexivity|]. split; [reflexivity|].
  intros n i c. cbn [at3 relu]. rewrite Hi2, Ho1, Hi1, Hx. reflexivity.
Qed.

Lemma SelfAttention_forward_shape (sa : SelfAttention.t) (d : nat) (x : Tensor) :
  SelfAttention.constructed d sa -> dim2 x = d ->
  exists y, SelfAttention.forward sa x = Ok y /\ shape y = shape x.
Proof.
  intros Hsa Hx.
  destruct (SelfAttention_forward_run sa d x Hsa Hx)
    as (q & k & v & w & Hq & Hk & Hv & Hw & Hf & Hweq & Hsq & Hsk & Hsv).
  assert (Hwsh : shape w = (dim0 x, dim1 x, dim1 x)) by (rewrite Hweq; reflexivity).
  injection Hwsh as Hw0 Hw1 Hw2. injection Hsv as Hv0 Hv1 Hv2.
  rewrite bmm_ok in Hf by congruence.
  eexists. split; [exact Hf|]. unfold shape. cbn [dim0 dim1 dim2]. congruence.
Qed.

(** The source's run of the block, step by step. *)
Lemma TransformerBlock_forward_run
    (tb : TransformerBlock.t) (d hidden : nat) (x : Tensor) :
  TransformerBlock.constructed d hidden tb -> dim2 x = d ->
  exists attended s1 x1 forwarded s2 out,
    SelfAttention.forward (TransformerBlock.attention tb) x = Ok attended
    /\ Spec.residual x attended s1
    /\ LayerNorm.forward (TransformerBlock.norm1 tb) s1 = Ok x1
    /\ Spec.layer_normed (TransformerBlock.norm1 tb) s1 x1
    /\ TransformerBlock.feed_forward tb x1 = Ok forwarded
    /\ Spec.feed_forwarded (TransformerBlock.ff_in tb) (TransformerBlock.ff_out tb)
                           x1 forwarded
    /\ Spec.residual x1 forwarded s2
    /\ LayerNorm.forward (TransformerBlock.norm2 tb) s2 = Ok out
    /\ Spec.layer_normed (TransformerBlock.norm2 tb) s2 out
    /\ TransformerBlock.forward tb x = Ok out
    /\ shape out = shape x.
Proof.
  intros (Hsa & Hfi & Hfo & Hn1 & Hn2) Hx.
  unfold LayerNorm.constructed in Hn1, Hn2.
  destruct (SelfAttention_forward_shape _ d x Hsa Hx) as (attended & Ha & Hash).
  destruct (add_same_shape x attended (eq_sym Hash)) as (s1 & Hs1 & Hr1).
  pose proof (proj1 Hr1) as Hs1sh. injection Hs1sh as Hs10 Hs11 Hs12.
  destruct (LayerNorm_forward_ok (TransformerBlock.norm1 tb) s1) as (x1 & Hx1 & Hl1);
    [congruence|].
  pose proof (proj1 Hl1) as Hx1sh. injection Hx1sh as Hx10 Hx11 Hx12.
  destruct (feed_forward_ok tb d hidden x1 Hfi Hfo) as (fw & Hfw & Hff);
    [congruence|].
  pose proof (proj1 Hff) as Hfwsh. injection Hfwsh as Hfw0 Hfw1 Hfw2.
  destruct (add_same_shape x1 fw) as (s2 & Hs2 & Hr2).
  { unfold shape. destruct Hfo as [_ Hfo]. congruence. }
  pose proof (proj1 Hr2) as Hs2sh. injection Hs2sh as Hs20 Hs21 Hs22.
  destruct (LayerNorm_forward_ok (TransformerBlock.norm2 tb) s2) as (out & Hout & Hl2);
    [congruence|].
  pose proof (proj1 Hl2) as Hosh. injection Hosh as Ho0 Ho1 Ho2.
  exists attended, s1, x1, fw, s2, out.
  repeat (split; [assumption|]).
  split.
  - unfold TransformerBlock.forward.
    rewrite Ha. cbn [mbind result_bind]. rewrite Hs1. cbn [mbind result_bind].
    rewrite Hx1. cbn [mbind result_bind]. rewrite Hfw. cbn [mbind result_bind].
    rewrite Hs2. cbn [mbind result_bind]. exact Hout.
  - unfold shape. congruence.
Qed.

(** C6, as the code has it: [forward] is
    [norm2 (x1 + feed_forward x1)] with [x1 = norm1 (x + attention x)];
    the feed-forward part is linear, ReLU, linear; the output has the
    shape of the input. Each layer norm subtracts the mean of a position's
    vector and divides by [sqrt (var + eps)], [eps = 1e-5], before the
    learned scale and shift: the normalised vector has mean zero and
    variance [var / (var + eps)], which is below one. *)
Theorem transformer_block_composition
    (tb : TransformerBlock.t) (d hidden : nat) (x : Tensor) :
  TransformerBlock.constructed d hidden tb -> dim2 x = d -> (0 < d)%nat ->
  exists attended s1 x1 forwarded s2 out,
    SelfAttention.forward (TransformerBlock.attention tb) x = Ok attended
    /\ Spec.residual x attended s1
    /\ LayerNorm.forward (TransformerBlock.norm1 tb) s1 = Ok x1
    /\ Spec.layer_normed (TransformerBlock.norm1 tb) s1 x1
    /\ TransformerBlock.feed_forward tb x1 = Ok forwarded
    /\ Spec.feed_forwarded (TransformerBlock.ff_in tb) (TransformerBlock.ff_out tb)
                           x1 forwarded
    /\ Spec.residual x1 forwarded s2
    /\ LayerNorm.forward (TransformerBlock.norm2 tb) s2 = Ok out
    /\ Spec.layer_normed (TransformerBlock.norm2 tb) s2 out
    /\ TransformerBlock.forward tb x = Ok out
    /\ shape out = shape x
    /\ (forall v : nat -> R,
          LayerNorm.mean d (LayerNorm.normalize d v) = 0
          /\ LayerNorm.var d (LayerNorm.normalize d v)
             = LayerNorm.var d v / (LayerNorm.var d v + LayerNorm.eps)
          /\ LayerNorm.var d (LayerNorm.normalize d v) < 1).
Proof.
  intros Htb Hx Hd.
  destruct (TransformerBlock_forward_run tb d hidden x Htb Hx)
    as (attended & s1 & x1 & fw & s2 & out & H).
  exists attended, s1, x1, fw, s2, out.
  repeat (split; [apply H|]).
  intros v. split; [apply normalize_mean, Hd|].
  split; [apply normalize_var, Hd | apply normalize_var_lt_1, Hd].
Qed.

Lemma transformer_block_composition_witness :
  exists attended s1 x1 forwarded s2 out,
    SelfAttention.forward (TransformerBlock.attention (Demo.block 2 2))
                          (Demo.const_tensor 1 3 2 1) = Ok attended
    /\ Spec.residual (Demo.const_tensor 1 3 2 1) attended s1
    /\ LayerNorm.forward (TransformerBlock.norm1 (Demo.block 2 2)) s1 = Ok x1
    /\ Spec.layer_normed (TransformerBlock.norm1 (Demo.block 2 2)) s1 x1
    /\ TransformerBlock.feed_forward (Demo.block 2 2) x1 = Ok forwarded
    /\ Spec.feed_forwarded (TransformerBlock.ff_in (Demo.block 2 2))
                           (TransformerBlock.ff_out (Demo.block 2 2)) x1 forwarded
    /\ Spec.residual x1 forwarded s2
    /\ LayerNorm.forward (TransformerBlock.norm2 (Demo.block 2 2)) s2 = Ok out
    /\ Spec.layer_normed (TransformerBlock.norm2 (Demo.block 2 2)) s2 out
    /\ TransformerBlock.forward (Demo.block 2 2) (Demo.const_tensor 1 3 2 1) = Ok out
    /\ shape out = shape (Demo.const_tensor 1 3 2 1)
    /\ (forall v : nat -> R,
          LayerNorm.mean 2 (LayerNorm.normalize 2 v) = 0
          /\ LayerNorm.var 2 (LayerNorm.normalize 2 v)
             = LayerNorm.var 2 v / (LayerNorm.var 2 v + LayerNorm.eps)
          /\ LayerNorm.var 2 (LayerNorm.normalize 2 v) < 1).
Proof.
  apply (transformer_block_composition (Demo.block 2 2) 2 2
           (Demo.const_tensor 1 3 2 1)).
  - repeat split.
  - reflexivity.
  - lia.
Defined.

(** C6 as stated fails: in the block with all-zero projections, the
    residual sum at a position with equal features is a constant vector,
    and the layer norm leaves it with variance zero, not one. *)
Lemma layer_norm_variance_not_unit :
  TransformerBlock.constructed 2 2 (Demo.block 2 2)
  /\ exists attended s1,
       SelfAttention.forward (TransformerBlock.attention (Demo.block 2 2))
                             (Demo.const_tensor 1 1 2 3) = Ok attended
       /\ add (Demo.const_tensor 1 1 2 3) attended = Ok s1
       /\ LayerNorm.var 2 (LayerNorm.normalize 2 (at3 s1 0 0)) = 0
       /\ LayerNorm.var 2 (LayerNorm.normalize 2 (at3 s1 0 0)) <> 1.
Proof.
  split; [repeat split|].
  do 2 eexists. split; [reflexivity|]. split; [reflexivity|].
  assert (E : forall v : nat -> R,
            (forall k, (k < 2)%nat -> v k = 3) ->
            LayerNorm.var 2 (LayerNorm.normalize 2 v) = 0).
  { intros v Hv. rewrite normalize_var by lia.
    rewrite (var_ext 2 v (fun _ => 3) Hv), var_const by lia.
    unfold Rdiv. apply Rmult_0_l. }
  assert (Hconst : forall k, (k < 2)%nat ->
            at3 (Demo.const_tensor 1 1 2 3) (bidx 1 0) (bidx 1 0) (bidx 2 k)
            + rsum 1 (fun k0 =>
                at3 (softmax (div_scalar
                       (mkTensor 1 1 1 (fun n0 i0 j0 =>
                          rsum 2 (fun k1 =>
                            (rsum 2 (fun k2 => 3 * 0) + 0)
                            * (rsum 2 (fun k2 => 3 * 0) + 0))))
                       (sqrt (INR 2)))) (bidx 1 0) (bidx 1 0) k0
                * (rsum 2 (fun k2 => 3 * 0) + 0)) = 3).
  { intros k _. cbn [at3 Demo.const_tensor rsum]. ring. }
  split; [apply E, Hconst|]. intros H1.
  match type of H1 with
  | ?a = 1 => assert (H0 : a = 0) by (apply E, Hconst); lra
  end.
Qed.

End TransformerBlockFacts.

(** ** Argmax *)

Section ArgmaxFacts.
Local Open Scope R_scope.

Lemma Rgtb_true x y : Rgtb x y = true <-> y < x.
Proof.
  unfold Rgtb. destruct (Rgt_dec x y) as [H|H]; split; intros H'; try assumption.
  - reflexivity.
  - discriminate.
  - exfalso. apply H. exact H'.
Qed.

Lemma Rgtb_false x y : Rgtb x y = false <-> x <= y.
Proof.
  unfold Rgtb. destruct (Rgt_dec x y) as [H|H]; split; intros H'.
  - discriminate.
  - unfold Rgt in H. lra.
  - apply Rnot_gt_le, H.
  - reflexivity.
Qed.

(** Scanning [l] after the prefix [pre], whose first maximum is at [bi]:
    the scan ends on the first maximum of the whole list. *)
Lemma argmax_from_first_max (l pre : list R) (bi : nat) :
  (bi < List.length pre)%nat ->
  (forall j, (j < List.length pre)%nat -> nth j pre 0 <= nth bi pre 0) ->
  (forall j, (j < bi)%nat -> nth j pre 0 < nth bi pre 0) ->
  let r := argmax_from Rgtb bi (nth bi pre 0) (List.length pre) l in
  (r < List.length (pre ++ l))%nat
  /\ (forall j, (j < List.length (pre ++ l))%nat ->
        nth j (pre ++ l) 0 <= nth r (pre ++ l) 0)
  /\ (forall j, (j < r)%nat -> nth j (pre ++ l) 0 < nth r (pre ++ l) 0).
Proof.
  revert pre bi. induction l as [|x l IH]; intros pre bi Hbi Hmax Hfirst; cbn zeta.
  - cbn [argmax_from]. rewrite app_nil_r. auto.
  - cbn [argmax_from].
    assert (Hlen : List.length (pre ++ [x]) = S (List.length pre))
      by (rewrite length_app; simpl; lia).
    assert (Hx : nth (List.length pre) (pre ++ [x]) 0 = x)
      by (rewrite app_nth2, Nat.sub_diag by lia; reflexivity).
    assert (Hpre : forall j, (j < List.length pre)%nat ->
                     nth j (pre ++ [x]) 0 = nth j pre 0)
      by (intros j Hj; apply app_nth1; exact Hj).
    replace (pre ++ x :: l) with ((pre ++ [x]) ++ l)
      by (rewrite <- app_assoc; reflexivity).
    destruct (Rgtb x (nth bi pre 0)) eqn:E.
    + apply Rgtb_true in E.
      specialize (IH (pre ++ [x]) (List.length pre)).
      rewrite Hlen, Hx in IH. apply IH.
      * lia.
      * intros j Hj. destruct (Nat.eq_dec j (List.length pre)) as [->|Hne].
        -- rewrite Hx. lra.
        -- rewrite Hpre by lia. specialize (Hmax j ltac:(lia)). lra.
      * intros j Hj. rewrite Hpre by lia. specialize (Hmax j Hj). lra.
    + apply Rgtb_false in E.
      specialize (IH (pre ++ [x]) bi).
      rewrite Hlen, (Hpre bi Hbi) in IH. apply IH.
      * lia.
      * intros j Hj. destruct (Nat.eq_dec j (List.length pre)) as [->|Hne].
        -- rewrite Hx. exact E.
        -- rewrite Hpre by lia. apply Hmax. lia.
      * intros j Hj. rewrite Hpre by lia. apply Hfirst, Hj.
Qed.

(** [argmax] succeeds on a non-empty list and returns the least index
    that holds a maximal entry. *)
Lemma argmax_first_max (l : list R) :
  l <> [] ->
  exists r, argmax Rgtb l = Ok r
    /\ (r < List.length l)%nat
    /\ (forall j, (j < List.length l)%nat -> nth j l 0 <= nth r l 0)
    /\ (forall j, (j < r)%nat -> nth j l 0 < nth r l 0).
Proof.
  destruct l as [|x l]; [congruence|]. intros _.
  eexists. split; [reflexivity|].
  apply (argmax_from_first_max l [x] 0%nat).
  - simpl. lia.
  - intros j Hj. simpl in Hj. replace j with 0%nat by lia. simpl. lra.
  - intros j Hj. lia.
Qed.

End ArgmaxFacts.

Example argmax_ties_Z : argmax Z.gtb [3; 7; 7; 1; 7]%Z = Ok 1%nat.
Proof. reflexivity. Qed.

Example argmax_empty_Z : argmax Z.gtb [] = Raise IndexError.
Proof. reflexivity. Qed.

(** ** The language model *)

Section SimpleLLMFacts.
Local Open Scope R_scope.

Lemma forallb_nth_seq {A} (f : A -> bool) (d : A) (l pre : list A) :
  forallb (fun i => f (nth i (pre ++ l) d)) (seq (List.length pre) (List.length l))
  = forallb f l.
Proof.
  revert pre. induction l as [|x l IH]; intros pre; [reflexivity|].
  cbn [List.length seq forallb].
  rewrite app_nth2, Nat.sub_diag by lia. cbn [nth]. f_equal.
  specialize (IH (pre ++ [x])).
  rewrite length_app, <- app_assoc in IH. cbn [List.length app] in IH.
  rewrite Nat.add_1_r in IH. exact IH.
Qed.

Lemma in_range_unsqueeze (e : Embedding.t) (tokens : list Z) :
  Embedding.in_range e (tensor_unsqueeze tokens)
  = forallb (Embedding.valid_id e) tokens.
Proof.
  unfold Embedding.in_range, tensor_unsqueeze. cbn [ldim0 ldim1 lat seq forallb].
  rewrite andb_true_r. apply (forallb_nth_seq (Embedding.valid_id e) 0%Z tokens []).
Qed.

Lemma sequential_shape (blocks : list TransformerBlock.t) (d hidden : nat) :
  Forall (TransformerBlock.constructed d hidden) blocks ->
  forall x, dim2 x = d ->
  exists out, SimpleLLM.sequential blocks x = Ok out /\ shape out = shape x.
Proof.
  induction 1 as [|b blocks Hb _ IH]; intros x Hx.
  - exists x. split; reflexivity.
  - destruct (TransformerBlock_forward_run b d hidden x Hb Hx)
      as (_ & _ & _ & _ & _ & y & _ & _ & _ & _ & _ & _ & _ & _ & _ & Hy & Hsh).
    destruct (IH y) as (out & Hout & Hosh).
    { injection Hsh as _ _ H2. congruence. }
    exists out. split; [|congruence].
    cbn [SimpleLLM.sequential]. rewrite Hy. exact Hout.
Qed.

(** [forward] on one sequence of valid ids that fits the positional
    table returns a logit row per position. *)
Lemma forward_ok (m : SimpleLLM.t) (V d hidden layers : nat) (tokens : list Z) :
  SimpleLLM.constructed V d hidden layers m ->
  forallb (Embedding.valid_id (SimpleLLM.embedding m)) tokens = true ->
  (List.length tokens <= SimpleLLM.default_max_seq_len)%nat ->
  exists out, SimpleLLM.forward m (tensor_unsqueeze tokens) = Ok out
              /\ shape out = (1%nat, List.length tokens, V).
Proof.
  intros ([HeV Hed] & Hpe & _ & Hblocks & [Hoi Hoo]) Hvalid Hlen.
  destruct (init_inv _ _ _ Hpe) as (_ & _ & Hpesh & _).
  injection Hpesh as Hp0 Hp1 Hp2.
  unfold SimpleLLM.forward, Embedding.forward.
  rewrite in_range_unsqueeze, Hvalid. cbn [mbind result_bind].
  unfold PositionalEncoding.forward.
  match goal with
  | |- context [add ?a ?b] => destruct (add_same_shape a b) as (s & Hs & Hr)
  end.
  { unfold shape, slice0, transpose01, tensor_unsqueeze.
    cbn [dim0 dim1 dim2 ldim0 ldim1]. rewrite Hp0, Hp1, Hp2, Hed.
    rewrite Nat.min_l by exact Hlen. reflexivity. }
  rewrite Hs. cbn [mbind result_bind].
  pose proof (proj1 Hr) as Hssh. injection Hssh as Hs0 Hs1 Hs2.
  cbn [transpose01 tensor_unsqueeze dim0 dim1 dim2 ldim0 ldim1] in Hs0, Hs1, Hs2.
  destruct (sequential_shape _ d hidden Hblocks (transpose01 s)) as (y & Hy & Hysh).
  { cbn [transpose01 dim2]. congruence. }
  rewrite Hy. cbn [mbind result_bind].
  injection Hysh as Hy0 Hy1 Hy2. cbn [transpose01 dim0 dim1 dim2] in Hy0, Hy1, Hy2.
  rewrite Linear_forward_ok by congruence.
  eexists. split; [reflexivity|]. unfold shape. cbn [dim0 dim1 dim2]. congruence.
Qed.

Lemma forward_invalid_id (m : SimpleLLM.t) (tokens : list Z) :
  forallb (Embedding.valid_id (SimpleLLM.embedding m)) tokens = false ->
  SimpleLLM.forward m (tensor_unsqueeze tokens) = Raise IndexError.
Proof.
  intros H. unfold SimpleLLM.forward, Embedding.forward.
  rewrite in_range_unsqueeze, H. reflexivity.
Qed.

Lemma forward_too_long (m : SimpleLLM.t) (V d hidden layers : nat) (tokens : list Z) :
  SimpleLLM.constructed V d hidden layers m ->
  forallb (Embedding.valid_id (SimpleLLM.embedding m)) tokens = true ->
  (SimpleLLM.default_max_seq_len < List.length tokens)%nat ->
  SimpleLLM.forward m (tensor_unsqueeze tokens) = Raise RuntimeError.
Proof.
  intros (_ & Hpe & _) Hvalid Hlen.
  destruct (init_inv _ _ _ Hpe) as (_ & _ & Hpesh & _).
  injection Hpesh as Hp0 Hp1 Hp2.
  unfold SimpleLLM.forward, Embedding.forward.
  rewrite in_range_unsqueeze, Hvalid. cbn [mbind result_bind].
  rewrite forward_leading_mismatch; [reflexivity| |].
  - unfold PositionalEncoding.max_seq_len. rewrite Hp0.
    unfold SimpleLLM.default_max_seq_len. lia.
  - unfold PositionalEncoding.max_seq_len. rewrite Hp0.
    cbn [transpose01 tensor_unsqueeze dim0 ldim1]. exact Hlen.
Qed.

Lemma flatten_one_row (m : Matrix) :
  rows m = 1%nat -> flatten m = map (at2 m 0%nat) (seq 0 (cols m)).
Proof.
  intros H. unfold flatten. rewrite H. cbn [seq flat_map]. apply app_nil_r.
Qed.

Lemma nth_map_seq (f : nat -> R) (n j : nat) :
  (j < n)%nat -> nth j (map f (seq 0 n)) 0 = f j.
Proof.
  intros H. rewrite (nth_indep _ 0 (f 0%nat)) by (rewrite length_map, length_seq; exact H).
  rewrite map_nth, seq_nth by exact H. reflexivity.
Qed.

Lemma valid_ids_forallb (e : Embedding.t) (V : nat) (tokens : list Z) :
  Embedding.num_embeddings e = V ->
  Forall (fun t => (0 <= t < Z.of_nat V)%Z) tokens ->
  forallb (Embedding.valid_id e) tokens = true.
Proof.
  intros HV H. apply forallb_forall. intros t Ht.
  rewrite Forall_forall in H. specialize (H t).
  unfold Embedding.valid_id. rewrite HV.
  apply andb_true_intro. split; [apply Z.leb_le | apply Z.ltb_lt];
    apply H, list_elem_of_In, Ht.
Qed.

(** With an all-zero output layer every logit is zero. *)
Lemma zero_output_logits (m : SimpleLLM.t) (i o : nat) (x : LongTensor) (out : Tensor) :
  SimpleLLM.output m = Demo.zero_linear i o ->
  SimpleLLM.forward m x = Ok out ->
  forall n p j, at3 out n p j = 0.
Proof.
  intros Hz Hout n p j. unfold SimpleLLM.forward in Hout. rewrite Hz in Hout.
  destruct (Embedding.forward (SimpleLLM.embedding m) x) as [e|]; [|discriminate].
  cbn [mbind result_bind] in Hout.
  destruct (PositionalEncoding.forward (SimpleLLM.positional_encoding m)
              (transpose01 e)) as [q|]; [|discriminate].
  cbn [mbind result_bind] in Hout.
  destruct (SimpleLLM.sequential (SimpleLLM.transformer_blocks m) (transpose01 q))
    as [y|]; [|discriminate].
  cbn [mbind result_bind] in Hout. unfold Linear.forward in Hout.
  destruct (dim2 y =? Linear.in_features (Demo.zero_linear i o))%nat; [|discriminate].
  injection Hout as <-.
  cbn [at3 Demo.zero_linear Linear.in_features Linear.weight Linear.bias].
  rewrite (rsum_ext i _ (fun _ => 0)) by (intros; ring).
  rewrite rsum_const. ring.
Qed.

(** C4: on a non-empty sequence the inference cell returns the index of
    the largest logit in the row that [forward] produced for the last
    position; of several equal largest logits the one with the lowest
    index is returned. When [forward] raises, so does the cell; on valid
    ids within the positional table [forward] does return. *)
Theorem predict_next_first_argmax
    (m : SimpleLLM.t) (V d hidden layers : nat) (tokens : list Z) :
  SimpleLLM.constructed V d hidden layers m -> tokens <> [] ->
  (forall out, SimpleLLM.forward m (tensor_unsqueeze tokens) = Ok out ->
     exists i, SimpleLLM.predict_next m tokens = Ok i
       /\ (i < V)%nat
       /\ (forall j, (j < V)%nat ->
             at3 out 0 (List.length tokens - 1) j
             <= at3 out 0 (List.length tokens - 1) i)
       /\ (forall j, (j < i)%nat ->
             at3 out 0 (List.length tokens - 1) j
             < at3 out 0 (List.length tokens - 1) i))
  /\ (forall e, SimpleLLM.forward m (tensor_unsqueeze tokens) = Raise e ->
        SimpleLLM.predict_next m tokens = Raise e)
  /\ (Forall (fun t => (0 <= t < Z.of_nat V)%Z) tokens ->
      (List.length tokens <= SimpleLLM.default_max_seq_len)%nat ->
      exists out, SimpleLLM.forward m (tensor_unsqueeze tokens) = Ok out
                  /\ shape out = (1%nat, List.length tokens, V)).
Proof.
  intros Hm Hne. split; [|split].
  - intros out Hout.
    destruct (forallb (Embedding.valid_id (SimpleLLM.embedding m)) tokens) eqn:Hvalid.
    2:{ rewrite (forward_invalid_id m tokens Hvalid) in Hout. discriminate. }
    destruct (Nat.le_gt_cases (List.length tokens) SimpleLLM.default_max_seq_len)
      as [Hlen|Hlen].
    2:{ rewrite (forward_too_long m V d hidden layers tokens Hm Hvalid Hlen) in Hout.
        discriminate. }
    destruct (forward_ok m V d hidden layers tokens Hm Hvalid Hlen)
      as (out' & Hout' & Hsh).
    assert (out' = out) by congruence. subst out'.
    injection Hsh as H0 H1 H2.
    destruct tokens as [|t ts]; [congruence|].
    assert (HV : (0 < V)%nat).
    { cbn [forallb] in Hvalid. apply andb_prop in Hvalid as [Ht _].
      unfold Embedding.valid_id in Ht. apply andb_prop in Ht as [Ha Hb].
      apply Z.leb_le in Ha. apply Z.ltb_lt in Hb.
      destruct Hm as ([HeV _] & _). rewrite HeV in Hb. lia. }
    unfold SimpleLLM.predict_next. rewrite Hout. cbn [mbind result_bind].
    unfold select_last. rewrite H1. cbn [List.length Nat.eqb mbind result_bind].
    rewrite flatten_one_row by (cbn [rows]; exact H0).
    cbn [cols at2]. rewrite H2.
    destruct (argmax_first_max
                (map (fun k => at3 out 0 (S (List.length ts) - 1) k) (seq 0 V)))
      as (r & Hr & Hlt & Hmax & Hfirst).
    { destruct V; [lia|]. discriminate. }
    rewrite length_map, length_seq in Hlt, Hmax.
    exists r. split; [exact Hr|]. split; [exact Hlt|]. split.
    + intros j Hj. specialize (Hmax j Hj).
      rewrite !nth_map_seq in Hmax by assumption. exact Hmax.
    + intros j Hj. specialize (Hfirst j Hj).
      rewrite !nth_map_seq in Hfirst by lia. exact Hfirst.
  - intros e He. destruct tokens as [|t ts]; [congruence|].
    unfold SimpleLLM.predict_next. rewrite He. reflexivity.
  - intros Hvalid Hlen.
    apply (forward_ok m V d hidden layers tokens Hm); [|exact Hlen].
    apply (valid_ids_forallb _ V); [|exact Hvalid]. apply Hm.
Qed.

Lemma predict_next_first_argmax_witness :
  exists out i,
    SimpleLLM.forward Demo.model (tensor_unsqueeze [1%Z; 0%Z]) = Ok out
    /\ shape out = (1%nat, 2%nat, 2%nat)
    /\ SimpleLLM.predict_next Demo.model [1%Z; 0%Z] = Ok i
    /\ at3 out 0 1 0 = at3 out 0 1 1
    /\ i = 0%nat.
Proof.
  assert (Hm : SimpleLLM.constructed 2 2 2 1 Demo.model).
  { split; [split; reflexivity|]. split; [reflexivity|]. split; [reflexivity|].
    split; [|split; reflexivity].
    constructor; [|constructor]. repeat split. }
  pose proof (predict_next_first_argmax Demo.model 2 2 2 1 [1%Z; 0%Z] Hm
                ltac:(discriminate)) as (Hcell & _ & Hforward).
  assert (Hv : Forall (fun t => (0 <= t < Z.of_nat 2)%Z) [1%Z; 0%Z]).
  { constructor; [lia|]. constructor; [lia|]. constructor. }
  assert (Hl : (List.length [1%Z; 0%Z] <= SimpleLLM.default_max_seq_len)%nat).
  { apply Nat.leb_le. reflexivity. }
  destruct (Hforward Hv Hl) as (out & Hout & Hsh).
  destruct (Hcell out Hout) as (i & Hi & Hlt & _ & Hfirst).
  pose proof (zero_output_logits Demo.model 2 2 _ out eq_refl Hout) as Hrow.
  exists out, i. split; [exact Hout|]. split; [exact Hsh|].
  split; [exact Hi|]. split; [rewrite !Hrow; reflexivity|].
  destruct i as [|i]; [reflexivity|].
  specialize (Hfirst 0%nat ltac:(lia)).
  rewrite !Hrow in Hfirst. lra.
Defined.

End SimpleLLMFacts.

(** ** More on the tokenizer *)

Section TokenizerMore.
Import Tokenizer.

Lemma split_from_concat (a b : string) (c : ascii) : forall cur,
  isspace c = true ->
  split_from cur (String.append a (String c b))
  = split_from cur a ++ split_from [] b.
Proof.
  induction a as [|x a IH]; intros cur Hc.
  - change (split_from cur (String c b) = split_from cur "" ++ split_from [] b).
    cbn [split_from]. rewrite Hc. reflexivity.
  - change (split_from cur (String x (String.append a (String c b)))
            = split_from cur (String x a) ++ split_from [] b).
    cbn [split_from]. destruct (isspace x).
    + rewrite IH by exact Hc. rewrite app_assoc. reflexivity.
    + apply IH, Hc.
Qed.

Lemma comprehension_app {A B} (f : A -> result B) (xs ys : list A) :
  comprehension f (xs ++ ys)
  = (x ← comprehension f xs; y ← comprehension f ys; Ok (x ++ y)).
Proof.
  induction xs as [|a xs IH]; cbn [app comprehension].
  - cbn [mbind result_bind]. destruct (comprehension f ys); reflexivity.
  - destruct (f a) as [v|e]; cbn [mbind result_bind]; [|reflexivity].
    rewrite IH. destruct (comprehension f xs) as [vs|e]; cbn [mbind result_bind];
      [|reflexivity].
    destruct (comprehension f ys); reflexivity.
Qed.

Lemma comprehension_Forall {A B} (f : A -> result B) (P : B -> Prop) (xs : list A) :
  (forall x y, In x xs -> f x = Ok y -> P y) ->
  forall ys, comprehension f xs = Ok ys ->
  Forall P ys /\ List.length ys = List.length xs.
Proof.
  induction xs as [|x xs IH]; intros H ys Hys; cbn [comprehension] in Hys.
  - injection Hys as <-. split; [constructor | reflexivity].
  - destruct (f x) as [y|e] eqn:Hx; cbn [mbind result_bind] in Hys; [|discriminate].
    destruct (comprehension f xs) as [ys'|e] eqn:Hxs; cbn [mbind result_bind] in Hys;
      [|discriminate].
    injection Hys as <-.
    destruct (IH (fun x0 y0 Hin => H x0 y0 (or_intror Hin)) ys' eq_refl) as [HF HL].
    split.
    + constructor; [|exact HF]. apply (H x y); [left; reflexivity | exact Hx].
    + cbn [List.length]. rewrite HL. reflexivity.
Qed.

(** X1: tokenizing two texts joined by a whitespace character gives the
    ids of the first followed by the ids of the second, and raises exactly
    when one of the two parts does. *)
Theorem tokenize_joined (a b : string) (c : ascii) (vocab : gmap string Z) :
  isspace c = true ->
  tokenize (String.append a (String c b)) vocab
  = (ids_a ← tokenize a vocab; ids_b ← tokenize b vocab; Ok (ids_a ++ ids_b)).
Proof.
  intros Hc. unfold tokenize, split.
  rewrite split_from_concat by exact Hc. apply comprehension_app.
Qed.

Lemma tokenize_joined_witness :
  tokenize (String.append "what are" (String " " "you doing")) Tokenizer.vocab
  = (ids_a ← tokenize "what are" Tokenizer.vocab;
     ids_b ← tokenize "you doing" Tokenizer.vocab;
     Ok (ids_a ++ ids_b)).
Proof. apply (tokenize_joined "what are" "you doing" " "). reflexivity. Defined.

(** X2: [tokenize] returns one id per word and invents no id: whatever
    holds of every id stored in the vocabulary holds of every id it
    returns. *)
Theorem tokenize_ids_from_vocab
    (text : string) (vocab : gmap string Z) (P : Z -> Prop) (ids : list Z) :
  (forall word id, vocab !! word = Some id -> P id) ->
  tokenize text vocab = Ok ids ->
  Forall P ids /\ List.length ids = List.length (split text).
Proof.
  intros HP. unfold tokenize. apply comprehension_Forall.
  intros w id _. unfold lookup_word, getitem, get.
  destruct (vocab !! "<UNK>") as [unk|] eqn:Hu; cbn [mbind result_bind];
    [|discriminate].
  intros [= <-]. destruct (vocab !! w) as [v|] eqn:Hw.
  - apply (HP w), Hw.
  - apply (HP "<UNK>"), Hu.
Qed.

Lemma tokenize_ids_from_vocab_witness :
  Forall (fun id => (0 <= id < 7)%Z) [0; 6; 1]%Z
  /\ List.length [0; 6; 1]%Z = List.length (split "hello xyz world").
Proof.
  apply (tokenize_ids_from_vocab "hello xyz world" Tokenizer.vocab
           (fun id => (0 <= id < 7)%Z)).
  - intros word id H. unfold Tokenizer.vocab in H.
    repeat (apply lookup_insert_Some in H as [[_ <-]|[_ H]]; [lia|]).
    rewrite lookup_empty in H. discriminate.
  - vm_compute. reflexivity.
Defined.

Lemma flush_chars (cur : list ascii) :
  concat (map list_ascii_of_string (flush cur)) = rev cur.
Proof.
  destruct cur as [|a cur]; [reflexivity|].
  cbn [flush map concat]. rewrite list_ascii_of_rev, app_nil_r. reflexivity.
Qed.

Lemma split_from_chars (text : string) : forall cur,
  concat (map list_ascii_of_string (split_from cur text))
  = rev cur ++ List.filter (fun c => negb (isspace c)) (list_ascii_of_string text).
Proof.
  induction text as [|c rest IH]; intros cur; cbn [split_from list_ascii_of_string List.filter].
  - rewrite flush_chars, app_nil_r. reflexivity.
  - destruct (isspace c); cbn [negb].
    + rewrite map_app, concat_app, flush_chars, (IH []). reflexivity.
    + rewrite (IH (c :: cur)). cbn [rev]. rewrite <- app_assoc. reflexivity.
Qed.

Lemma splits_words (text : string) (ws : list string) :
  splits text ws -> Forall (fun w => is_word w = true) ws.
Proof. induction 1; constructor; assumption. Qed.

(** X3: splitting loses nothing but whitespace: the characters of the
    words, in order, are the characters of the text that are not
    whitespace, and every word is non-empty and free of whitespace. *)
Theorem split_keeps_all_but_whitespace (text : string) :
  concat (map list_ascii_of_string (split text))
  = List.filter (fun c => negb (isspace c)) (list_ascii_of_string text)
  /\ Forall (fun w => is_word w = true) (split text).
Proof.
  split.
  - apply (split_from_chars text []).
  - apply (splits_words text), split_splits.
Qed.

End TokenizerMore.

(** ** The word lookup of the inference cell *)

Section WordLookup.
Import Cells.

Lemma word_of_cons (k : string) (v : Z) (items : list (string * Z)) (t : Z) :
  word_of ((k, v) :: items) t
  = if (v =? t)%Z then Returned k else word_of items t.
Proof.
  unfold word_of, values, keys. cbn [map fst snd index].
  destruct (v =? t)%Z; [reflexivity|].
  destruct (index t (map snd items)) as [i|]; reflexivity.
Qed.

Lemma word_of_in (items : list (string * Z)) (w : string) (t : Z) :
  word_of items t = Returned w -> In (w, t) items.
Proof.
  induction items as [|[k v] items IH]; [discriminate|].
  rewrite word_of_cons. destruct (v =? t)%Z eqn:E.
  - intros [= <-]. apply Z.eqb_eq in E. subst. left. reflexivity.
  - intros H. right. apply IH, H.
Qed.

(** X4: when no two words share an id, the lookup undoes the
    vocabulary: the word found for an id is the word stored with that
    id, and with distinct keys the two directions coincide. *)
Theorem word_of_inverts_vocab (items : list (string * Z)) (w : string) (t : Z) :
  NoDup (keys items) -> NoDup (values items) ->
  (as_vocab items !! w = Some t <-> word_of items t = Returned w).
Proof.
  intros Hk Hv. split.
  - intros H. apply elem_of_list_to_map_2, list_elem_of_In in H.
    clear Hk. induction items as [|[k v] items IH]; [contradiction|].
    rewrite word_of_cons. cbn [values map snd] in Hv.
    apply NoDup_cons in Hv as [Hnotin Hv].
    destruct H as [[= -> ->]|H].
    + rewrite Z.eqb_refl. reflexivity.
    + destruct (v =? t)%Z eqn:E; [|apply IH; assumption].
      apply Z.eqb_eq in E. subst v. exfalso. apply Hnotin.
      apply list_elem_of_In. change t with (snd (w, t)). apply in_map, H.
  - intros H. apply elem_of_list_to_map_1; [exact Hk|].
    apply list_elem_of_In, word_of_in, H.
Qed.

Lemma word_of_inverts_vocab_witness :
  as_vocab vocab_items !! "doing" = Some 5%Z <-> word_of vocab_items 5%Z = Returned "doing".
Proof.
  apply (word_of_inverts_vocab vocab_items "doing" 5%Z).
  - refine (bool_decide_unpack _ _). vm_compute. exact I.
  - refine (bool_decide_unpack _ _). vm_compute. exact I.
Defined.

(** X5: the lookup returns the first key, in insertion order, stored
    with the id, and raises [ValueError] exactly when no key has it; it
    raises nothing else. *)
Theorem word_of_first_key (items : list (string * Z)) (t : Z) :
  (In t (values items) ->
     exists pre w post,
       items = pre ++ (w, t) :: post
       /\ ~ In t (values pre)
       /\ word_of items t = Returned w)
  /\ (~ In t (values items) -> word_of items t = Raised ValueError).
Proof.
  induction items as [|[k v] items [IHin IHout]].
  - split; [intros []|reflexivity].
  - rewrite word_of_cons. cbn [values map snd]. destruct (v =? t)%Z eqn:E.
    + apply Z.eqb_eq in E. subst v. split.
      * intros _. exists [], k, items. split; [reflexivity|]. split; [intros []|reflexivity].
      * intros H. exfalso. apply H. left. reflexivity.
    + apply Z.eqb_neq in E. split.
      * intros [H|H]; [congruence|].
        destruct (IHin H) as (pre & w & post & -> & Hpre & Hw).
        exists ((k, v) :: pre), w, post. split; [reflexivity|].
        split; [|exact Hw]. cbn [values map snd]. intros [H'|H']; [congruence|].
        apply Hpre, H'.
      * intros H. apply IHout. intros H'. apply H. right. exact H'.
Qed.

Lemma word_of_first_key_witness :
  (exists pre w post,
     [("a", 1%Z); ("b", 2%Z); ("c", 2%Z)] = pre ++ (w, 2%Z) :: post
     /\ ~ In 2%Z (values pre)
     /\ word_of [("a", 1%Z); ("b", 2%Z); ("c", 2%Z)] 2%Z = Returned w)
  /\ word_of [("a", 1%Z); ("b", 2%Z); ("c", 2%Z)] 7%Z = Raised ValueError.
Proof.
  split.
  - apply (proj1 (word_of_first_key [("a", 1%Z); ("b", 2%Z); ("c", 2%Z)] 2%Z)).
    simpl. auto.
  - apply (proj2 (word_of_first_key [("a", 1%Z); ("b", 2%Z); ("c", 2%Z)] 7%Z)).
    simpl. intros [H|[H|[H|[]]]]; discriminate.
Defined.

End WordLookup.

Example vocab_items_as_vocab : Cells.as_vocab Cells.vocab_items = Tokenizer.vocab.
Proof. reflexivity. Qed.

Example word_of_demo : Cells.word_of Cells.vocab_items 5%Z = Cells.Returned "doing".
Proof. reflexivity. Qed.

(** ** More on the embedding and the positional encoding *)

Section EmbeddingMore.
Local Open Scope R_scope.


End EmbeddingMore.

Section PositionalEncodingMore.
Local Open Scope R_scope.
Import PositionalEncoding.

Lemma broadcast_dim_one_r a : broadcast_dim a 1 = Ok a.
Proof.
  unfold broadcast_dim. destruct (a =? 1)%nat eqn:E.
  - apply Nat.eqb_eq in E. subst. reflexivity.
  - reflexivity.
Qed.

(** Within the table, [forward] adds to position [i] of every sequence of
    the batch the table row [i]. *)
Lemma forward_in_table (d M : nat) (self : t) (x : Tensor) :
  init d M = Ok self -> dim2 x = d -> (dim0 x <= M)%nat ->
  exists y, forward self x = Ok y
    /\ shape y = shape x
    /\ forall i b k, (i < dim0 x)%nat -> (b < dim1 x)%nat -> (k < dim2 x)%nat ->
         at3 y i b k = at3 x i b k + at3 (pe self) i 0 k.
Proof.
  intros Hinit Hx HL.
  destruct (init_inv d M self Hinit) as (_ & _ & Hsh & _).
  injection Hsh as Hp0 Hp1 Hp2.
  unfold forward, add, slice0. cbn [dim0 dim1 dim2 at3].
  rewrite Hp0, Hp1, Hp2, Hx, Nat.min_l by exact HL.
  rewrite !broadcast_dim_same, broadcast_dim_one_r. cbn [mbind result_bind].
  eexists. split; [reflexivity|]. split.
  - unfold shape. cbn [dim0 dim1 dim2]. rewrite Hx. reflexivity.
  - intros i b k Hi Hb Hk. cbn [at3].
    rewrite !bidx_lt by (try assumption; lia). reflexivity.
Qed.

(** X7: on a sequence that fits the table, the positional encoder keeps
    the shape and adds to position [i] of every sequence of the batch the
    same signal: [sin (i / 10000^(2k/D))] at feature [2k] and
    [cos (i / 10000^(2k/D))] at feature [2k+1]. *)
Theorem positional_forward_adds_signal (d M : nat) (self : t) (x : Tensor) :
  init d M = Ok self -> dim2 x = d -> (dim0 x <= M)%nat ->
  exists y, forward self x = Ok y
    /\ shape y = shape x
    /\ forall i b k, (i < dim0 x)%nat -> (b < dim1 x)%nat ->
         ((2 * k < d)%nat ->
            at3 y i b (2 * k)
            = at3 x i b (2 * k) + sin (INR i / Rpower 10000 (INR (2 * k) / INR d)))
         /\ ((2 * k + 1 < d)%nat ->
            at3 y i b (2 * k + 1)
            = at3 x i b (2 * k + 1) + cos (INR i / Rpower 10000 (INR (2 * k) / INR d))).
Proof.
  intros Hinit Hx HL.
  destruct (forward_in_table d M self x Hinit Hx HL) as (y & Hy & Hsh & Hat).
  destruct (init_inv d M self Hinit) as (Hd & _ & _ & Hpe).
  exists y. split; [exact Hy|]. split; [exact Hsh|].
  intros i b k Hi Hb. destruct (Hpe i k ltac:(lia)) as [Heven Hodd]. split.
  - intros Hk. rewrite Hat by (try assumption; lia).
    rewrite (Heven Hk), angle_as_power by exact Hd. reflexivity.
  - intros Hk. rewrite Hat by (try assumption; lia).
    rewrite (Hodd Hk), angle_as_power by exact Hd. reflexivity.
Qed.

Lemma positional_forward_adds_signal_witness :
  exists y, forward (Demo.encoding 2 4) (Demo.const_tensor 3 5 2 1) = Ok y
    /\ shape y = shape (Demo.const_tensor 3 5 2 1)
    /\ forall i b k, (i < 3)%nat -> (b < 5)%nat ->
         ((2 * k < 2)%nat ->
            at3 y i b (2 * k)
            = 1 + sin (INR i / Rpower 10000 (INR (2 * k) / INR 2)))
         /\ ((2 * k + 1 < 2)%nat ->
            at3 y i b (2 * k + 1)
            = 1 + cos (INR i / Rpower 10000 (INR (2 * k) / INR 2))).
Proof.
  apply (positional_forward_adds_signal 2 4 (Demo.encoding 2 4)
           (Demo.const_tensor 3 5 2 1)).
  - reflexivity.
  - reflexivity.
  - simpl. lia.
Defined.

Lemma init_one_ok (M : nat) : exists self, init 1 M = Ok self.
Proof.
  unfold init, setitem_stride2.
  cbn -[Nat.leb Nat.div Nat.even Nat.sub].
  rewrite !expandable_refl. cbn -[Nat.leb Nat.div Nat.even Nat.sub].
  rewrite !expandable_refl. cbn -[Nat.leb Nat.div Nat.even Nat.sub].
  eexists. reflexivity.
Qed.

(** X8: the constructor succeeds exactly for dimension one and for the
    positive even dimensions; it raises [ZeroDivisionError] for dimension
    zero and [RuntimeError] for every odd dimension from three on. *)
Theorem init_outcome (d M : nat) :
  match init d M with
  | Ok self => (d = 1%nat \/ ((0 < d)%nat /\ Nat.even d = true))
               /\ shape (pe self) = (M, 1%nat, d)
  | Raise e => (d = 0%nat /\ e = ZeroDivisionError)
               \/ ((3 <= d)%nat /\ Nat.odd d = true /\ e = RuntimeError)
  end.
Proof.
  destruct (Nat.eq_dec d 0%nat) as [->|Hd0].
  { rewrite init_zero_raises. left. split; reflexivity. }
  destruct (Nat.eq_dec d 1%nat) as [->|Hd1].
  { destruct (init_one_ok M) as (self & Hs). rewrite Hs.
    split; [left; reflexivity|]. apply (init_inv 1 M self Hs). }
  destruct (Nat.even d) eqn:He.
  - destruct (init_even_ok d M ltac:(lia) He) as (self & Hs). rewrite Hs.
    split; [right; split; [lia|reflexivity]|]. apply (init_inv d M self Hs).
  - assert (Ho : Nat.odd d = true) by (unfold Nat.odd; rewrite He; reflexivity).
    assert (3 <= d)%nat.
    { destruct d as [|[|[|d]]]; try lia. discriminate He. }
    rewrite init_odd_raises by assumption. right. auto.
Qed.

Lemma rsum_pairs (m : nat) (f : nat -> R) :
  rsum (2 * m) f = rsum m (fun k => f (2 * k)%nat + f (2 * k + 1)%nat).
Proof.
  induction m as [|m IH]; [reflexivity|].
  replace (2 * S m)%nat with (S (S (2 * m))) by lia.
  cbn [rsum]. rewrite IH.
  replace (S (2 * m)) with (2 * m + 1)%nat by lia. ring.
Qed.

(** X9: every entry of the positional table lies between -1 and 1, and
    for an even dimension every row has squared norm D/2, the same for
    all positions. *)
Theorem positional_rows_bounded (d M p : nat) (self : t) :
  init d M = Ok self -> (p < M)%nat ->
  (forall c, (c < d)%nat -> -1 <= at3 (pe self) p 0 c <= 1)
  /\ (Nat.even d = true ->
      rsum d (fun c => at3 (pe self) p 0 c * at3 (pe self) p 0 c) = INR d / 2).
Proof.
  intros Hinit Hp.
  destruct (init_inv d M self Hinit) as (Hd & _ & _ & Hat).
  split.
  - intros c Hc. destruct (Nat.Even_or_Odd c) as [[j ->]|[j ->]].
    + rewrite (proj1 (Hat p j Hp) Hc). apply SIN_bound.
    + rewrite (proj2 (Hat p j Hp) Hc). apply COS_bound.
  - intros He. apply Nat.even_spec in He as [m ->].
    rewrite rsum_pairs.
    rewrite (rsum_ext m _ (fun _ => 1)).
    + rewrite rsum_const, mult_INR. simpl. field.
    + intros k Hk.
      rewrite (proj1 (Hat p k Hp)) by lia. rewrite (proj2 (Hat p k Hp)) by lia.
      pose proof (sin2_cos2 (INR p * div_term (2 * m) k)) as H.
      unfold Rsqr in H. exact H.
Qed.

Lemma positional_rows_bounded_witness :
  (forall c, (c < 4)%nat -> -1 <= at3 (pe (Demo.encoding 4 3)) 2 0 c <= 1)
  /\ (Nat.even 4 = true ->
      rsum 4 (fun c => at3 (pe (Demo.encoding 4 3)) 2 0 c
                       * at3 (pe (Demo.encoding 4 3)) 2 0 c) = INR 4 / 2).
Proof.
  apply (positional_rows_bounded 4 3 2 (Demo.encoding 4 3)).
  - reflexivity.
  - lia.
Defined.

End PositionalEncodingMore.

(** ** More on self-attention *)

Section SelfAttentionMore.
Local Open Scope R_scope.

Lemma rsum_le n (f g : nat -> R) :
  (forall k, (k < n)%nat -> f k <= g k) -> rsum n f <= rsum n g.
Proof.
  induction n as [|n IH]; intros H; cbn [rsum]; [lra|].
  assert (rsum n f <= rsum n g) by (apply IH; intros k Hk; apply H; lia).
  assert (f n <= g n) by (apply H; lia). lra.
Qed.

(** The run of [forward] with every intermediate tensor written out. *)
Lemma SelfAttention_forward_entries (sa : SelfAttention.t) (d : nat) (x : Tensor) :
  SelfAttention.constructed d sa -> dim2 x = d ->
  exists v w y,
    Linear.forward (SelfAttention.value sa) x = Ok v
    /\ SelfAttention.forward sa x = Ok y
    /\ shape v = shape x /\ shape y = shape x
    /\ shape w = (dim0 x, dim1 x, dim1 x)
    /\ (forall n i j, (0 < dim1 x)%nat -> 0 < at3 w n i j)
    /\ (forall n i, (0 < dim1 x)%nat -> rsum (dim1 x) (at3 w n i) = 1)
    /\ (forall n i c, at3 y n i c
                      = rsum (dim1 x) (fun j => at3 w n i j * at3 v n j c))
    /\ (forall n i c, at3 v n i c
                      = rsum d (fun k => at3 x n i k
                                         * Linear.weight (SelfAttention.value sa) c k)
                        + Linear.bias (SelfAttention.value sa) c).
Proof.
  intros Hsa Hx.
  destruct (SelfAttention_forward_run sa d x Hsa Hx)
    as (q & k & v & w & Hq & Hk & Hv & Hw & Hf & Hweq & Hsq & Hsk & Hsv).
  assert (Hwsh : shape w = (dim0 x, dim1 x, dim1 x)) by (rewrite Hweq; reflexivity).
  pose proof Hwsh as Hwsh'. injection Hwsh' as Hw0 Hw1 Hw2.
  pose proof Hsv as Hsv'. injection Hsv' as Hv0 Hv1 Hv2.
  rewrite bmm_ok in Hf by congruence.
  exists v, w. eexists. split; [exact Hv|]. split; [exact Hf|].
  split; [rewrite Hsv; unfold shape; congruence|].
  split; [unfold shape; cbn [dim0 dim1 dim2]; congruence|].
  split; [exact Hwsh|]. split; [|split; [|split]].
  - intros n i j HL. rewrite Hweq. apply softmax_pos. exact HL.
  - intros n i HL. rewrite Hweq.
    apply (softmax_row_sum
             (div_scalar
                (mkTensor (dim0 x) (dim1 x) (dim1 x) (fun n i j =>
                   rsum d (fun c => at3 q n i c * at3 k n j c)))
                (sqrt (INR d))) n i).
    exact HL.
  - intros n i c. cbn [at3]. rewrite Hw2. reflexivity.
  - intros n i c. destruct Hsa as (_ & _ & [Hvi Hvo]).
    rewrite (Linear_forward_ok _ _ (eq_trans Hx (eq_sym Hvi))) in Hv.
    injection Hv as <-. cbn [at3]. rewrite Hvi. reflexivity.
Qed.

(** X10: every entry of the attention output is a weighted average of the
    value vectors of the sequence: it lies between any bounds that hold
    for that feature of all the values. *)
Theorem attention_output_between_values
    (sa : SelfAttention.t) (d : nat) (x : Tensor) :
  SelfAttention.constructed d sa -> dim2 x = d ->
  (0 < d)%nat -> (0 < dim1 x)%nat ->
  exists v y,
    Linear.forward (SelfAttention.value sa) x = Ok v
    /\ SelfAttention.forward sa x = Ok y
    /\ forall n c lo hi,
         (forall j, (j < dim1 x)%nat -> lo <= at3 v n j c <= hi) ->
         forall i, lo <= at3 y n i c <= hi.
Proof.
  intros Hsa Hx _ HL.
  destruct (SelfAttention_forward_entries sa d x Hsa Hx)
    as (v & w & y & Hv & Hy & _ & _ & _ & Hpos & Hsum & Hyat & _).
  exists v, y. split; [exact Hv|]. split; [exact Hy|].
  intros n c lo hi Hb i. rewrite Hyat.
  assert (Hlo : rsum (dim1 x) (fun j => at3 w n i j * lo) = lo)
    by (rewrite rsum_scal_r, Hsum by exact HL; ring).
  assert (Hhi : rsum (dim1 x) (fun j => at3 w n i j * hi) = hi)
    by (rewrite rsum_scal_r, Hsum by exact HL; ring).
  split.
  - apply Rle_trans with (rsum (dim1 x) (fun j => at3 w n i j * lo));
      [rewrite Hlo; lra|].
    apply rsum_le. intros j Hj.
    apply Rmult_le_compat_l; [apply Rlt_le, Hpos, HL | apply Hb, Hj].
  - apply Rle_trans with (rsum (dim1 x) (fun j => at3 w n i j * hi));
      [|rewrite Hhi; lra].
    apply rsum_le. intros j Hj.
    apply Rmult_le_compat_l; [apply Rlt_le, Hpos, HL | apply Hb, Hj].
Qed.

Lemma attention_output_between_values_witness :
  exists v y,
    Linear.forward (SelfAttention.value (Samples.copy_attn 2)) (Samples.ramp 3 2) = Ok v
    /\ SelfAttention.forward (Samples.copy_attn 2) (Samples.ramp 3 2) = Ok y
    /\ forall n c lo hi,
         (forall j, (j < 3)%nat -> lo <= at3 v n j c <= hi) ->
         forall i, lo <= at3 y n i c <= hi.
Proof.
  apply (attention_output_between_values (Samples.copy_attn 2) 2 (Samples.ramp 3 2)).
  - repeat split.
  - reflexivity.
  - lia.
  - simpl. lia.
Defined.

(** X11: on a sequence of one position the attention weight is one, and
    the output is the value projection of that position; the query and
    key layers have no effect. *)
Theorem attention_single_position
    (sa : SelfAttention.t) (d : nat) (x : Tensor) :
  SelfAttention.constructed d sa -> dim2 x = d ->
  (0 < d)%nat -> dim1 x = 1%nat ->
  exists y,
    SelfAttention.forward sa x = Ok y
    /\ shape y = shape x
    /\ forall n c,
         at3 y n 0 c
         = rsum d (fun k => at3 x n 0 k * Linear.weight (SelfAttention.value sa) c k)
           + Linear.bias (SelfAttention.value sa) c.
Proof.
  intros Hsa Hx _ HL.
  destruct (SelfAttention_forward_entries sa d x Hsa Hx)
    as (v & w & y & Hv & Hy & _ & Hysh & _ & _ & Hsum & Hyat & Hvat).
  exists y. split; [exact Hy|]. split; [exact Hysh|].
  intros n c. rewrite Hyat, HL. cbn [rsum].
  specialize (Hsum n 0%nat ltac:(lia)). rewrite HL in Hsum. cbn [rsum] in Hsum.
  rewrite <- Hvat.
  replace (at3 w n 0 0) with 1 by lra. ring.
Qed.

Lemma attention_single_position_witness :
  exists y,
    SelfAttention.forward (Samples.copy_attn 2) (Samples.ramp 1 2) = Ok y
    /\ shape y = shape (Samples.ramp 1 2)
    /\ forall n c,
         at3 y n 0 c
         = rsum 2 (fun k => at3 (Samples.ramp 1 2) n 0 k
                            * Linear.weight (SelfAttention.value (Samples.copy_attn 2)) c k)
           + Linear.bias (SelfAttention.value (Samples.copy_attn 2)) c.
Proof.
  apply (attention_single_position (Samples.copy_attn 2) 2 (Samples.ramp 1 2)).
  - repeat split.
  - reflexivity.
  - lia.
  - reflexivity.
Defined.

Lemma rsum_as_list n (f : nat -> R) :
  rsum n f = fold_right Rplus 0 (map f (seq 0 n)).
Proof.
  induction n as [|n IH]; [reflexivity|].
  rewrite seq_S, map_app, fold_right_app. cbn [rsum map fold_right Nat.add].
  rewrite IH. generalize (map f (seq 0 n)) as l.
  induction l as [|a l IHl]; cbn [fold_right]; [ring|]. rewrite <- IHl. ring.
Qed.

Lemma fold_Rplus_perm (l l' : list R) :
  Permutation l l' -> fold_right Rplus 0 l = fold_right Rplus 0 l'.
Proof.
  induction 1; cbn [fold_right]; try congruence; ring.
Qed.

Lemma permutes_seq n (sigma : nat -> nat) :
  Reorder.permutes n sigma -> Permutation (map sigma (seq 0 n)) (seq 0 n).
Proof.
  intros [Hrange Hinj]. apply NoDup_Permutation_bis.
  - apply Injective_map_NoDup_in; [|apply seq_NoDup].
    intros i j Hi Hj. apply in_seq in Hi, Hj. apply Hinj; lia.
  - rewrite length_map. lia.
  - intros y Hy. apply in_map_iff in Hy as (i & <- & Hi).
    apply in_seq in Hi. apply in_seq. specialize (Hrange i ltac:(lia)). lia.
Qed.

(** A sum does not depend on the order of its terms. *)
Lemma rsum_permutes n (sigma : nat -> nat) (f : nat -> R) :
  Reorder.permutes n sigma -> rsum n (fun j => f (sigma j)) = rsum n f.
Proof.
  intros H. rewrite !rsum_as_list.
  rewrite <- (map_map sigma f). apply fold_Rplus_perm, Permutation_map, permutes_seq, H.
Qed.

(** X12: self-attention has no notion of order: reordering the positions
    of the input reorders the positions of the output in the same way and
    changes nothing else. *)
Theorem attention_permutation_equivariant
    (sa : SelfAttention.t) (d : nat) (x : Tensor) (sigma : nat -> nat) :
  SelfAttention.constructed d sa -> dim2 x = d -> (0 < d)%nat ->
  Reorder.permutes (dim1 x) sigma ->
  exists y y',
    SelfAttention.forward sa x = Ok y
    /\ SelfAttention.forward sa (Reorder.permute_positions sigma x) = Ok y'
    /\ shape y' = shape y
    /\ forall n i c, at3 y' n i c = at3 y n (sigma i) c.
Proof.
  intros ([Hqi Hqo] & [Hki Hko] & [Hvi Hvo]) Hx _ Hsigma.
  destruct sa as [[qi qo qw qb] [ki ko kw kb] [vi vo vw vb]].
  destruct x as [B L D xa]. cbn [dim1 dim2] in *.
  cbn [SelfAttention.query SelfAttention.key SelfAttention.value
       Linear.in_features Linear.out_features] in *. subst.
  unfold SelfAttention.forward, SelfAttention.attention_weights, Linear.forward,
    Reorder.permute_positions.
  cbn [SelfAttention.query SelfAttention.key SelfAttention.value
       Linear.in_features Linear.out_features Linear.weight Linear.bias
       dim0 dim1 dim2 at3].
  rewrite !Nat.eqb_refl. cbn [mbind result_bind].
  unfold bmm. cbn [transpose12 dim0 dim1 dim2 at3].
  rewrite !Nat.eqb_refl. cbn [andb mbind result_bind softmax div_scalar dim0 dim1 dim2 at3].
  rewrite !Nat.eqb_refl. cbn [andb].
  do 2 eexists. split; [reflexivity|]. split; [reflexivity|]. split; [reflexivity|].
  intros n i c. cbn [at3].
  set (q := fun i c => rsum d (fun k => xa n i k * qw c k) + qb c).
  set (k := fun j c => rsum d (fun k0 => xa n j k0 * kw c k0) + kb c).
  set (v := fun j c => rsum d (fun k0 => xa n j k0 * vw c k0) + vb c).
  set (e := fun i j => exp (rsum d (fun c => q i c * k j c) / sqrt (INR d))).
  change (rsum L (fun j => e (sigma i) (sigma j)
                           / rsum L (fun j' => e (sigma i) (sigma j'))
                           * v (sigma j) c)
          = rsum L (fun j => e (sigma i) j / rsum L (fun j' => e (sigma i) j')
                             * v j c)).
  rewrite (rsum_permutes L sigma (e (sigma i)) Hsigma).
  apply (rsum_permutes L sigma
           (fun j => e (sigma i) j / rsum L (fun j' => e (sigma i) j') * v j c)
           Hsigma).
Qed.

Lemma attention_permutation_equivariant_witness :
  exists y y',
    SelfAttention.forward (Samples.copy_attn 2) (Samples.ramp 3 2) = Ok y
    /\ SelfAttention.forward (Samples.copy_attn 2)
         (Reorder.permute_positions Reorder.swap01 (Samples.ramp 3 2)) = Ok y'
    /\ shape y' = shape y
    /\ forall n i c, at3 y' n i c = at3 y n (Reorder.swap01 i) c.
Proof.
  apply (attention_permutation_equivariant (Samples.copy_attn 2) 2
           (Samples.ramp 3 2) Reorder.swap01).
  - repeat split.
  - reflexivity.
  - lia.
  - split.
    + intros [|[|[|i]]] H; simpl in *; lia.
    + intros [|[|[|i]]] [|[|[|j]]] Hi Hj; simpl in *; lia.
Defined.

End SelfAttentionMore.

(** ** More on the transformer block *)

Section TransformerBlockMore.
Local Open Scope R_scope.

Lemma SelfAttention_forward_mismatch (sa : SelfAttention.t) (d : nat) (x : Tensor) :
  SelfAttention.constructed d sa -> dim2 x <> d ->
  SelfAttention.forward sa x = Raise RuntimeError.
Proof.
  intros ([Hqi _] & _) Hx. unfold SelfAttention.forward, Linear.forward.
  rewrite Hqi. apply Nat.eqb_neq in Hx. rewrite Hx. reflexivity.
Qed.

(** X13: a stack of blocks built for D features returns a tensor of the
    shape of its input when the input has D features, and the first block
    raises [RuntimeError] when it has not; an empty stack returns its input
    whatever its shape. *)
Theorem block_stack_shape_or_error
    (blocks : list TransformerBlock.t) (d hidden : nat) (x : Tensor) :
  Forall (TransformerBlock.constructed d hidden) blocks ->
  (dim2 x = d ->
     exists out, SimpleLLM.sequential blocks x = Ok out /\ shape out = shape x)
  /\ (dim2 x <> d -> blocks <> [] ->
      SimpleLLM.sequential blocks x = Raise RuntimeError)
  /\ SimpleLLM.sequential [] x = Ok x.
Proof.
  intros Hblocks. split; [|split; [|reflexivity]].
  - intros Hx. apply (sequential_shape blocks d hidden Hblocks x Hx).
  - intros Hx Hne. destruct blocks as [|b blocks]; [congruence|].
    apply Forall_cons_1 in Hblocks as [(Hsa & _) _].
    cbn [SimpleLLM.sequential]. unfold TransformerBlock.forward.
    rewrite (SelfAttention_forward_mismatch _ d x Hsa Hx). reflexivity.
Qed.

Lemma block_stack_shape_or_error_witness :
  (exists out, SimpleLLM.sequential [Demo.block 2 3; Demo.block 2 3]
                 (Demo.const_tensor 1 4 2 1) = Ok out
               /\ shape out = shape (Demo.const_tensor 1 4 2 1))
  /\ SimpleLLM.sequential [Demo.block 2 3; Demo.block 2 3]
       (Demo.const_tensor 1 4 5 1) = Raise RuntimeError.
Proof.
  split.
  - apply (proj1 (block_stack_shape_or_error [Demo.block 2 3; Demo.block 2 3] 2 3
                    (Demo.const_tensor 1 4 2 1)
                    ltac:(repeat constructor))).
    reflexivity.
  - apply (proj1 (proj2 (block_stack_shape_or_error
                           [Demo.block 2 3; Demo.block 2 3] 2 3
                           (Demo.const_tensor 1 4 5 1)
                           ltac:(repeat constructor)))).
    + simpl. lia.
    + discriminate.
Defined.

Lemma rsum_term_le n (f : nat -> R) k :
  (forall j, (j < n)%nat -> 0 <= f j) -> (k < n)%nat -> f k <= rsum n f.
Proof.
  induction n as [|n IH]; intros Hf Hk; [lia|]. cbn [rsum].
  assert (0 <= rsum n f) by (apply rsum_nonneg; intros j Hj; apply Hf; lia).
  destruct (Nat.eq_dec k n) as [->|Hne].
  - lra.
  - assert (f k <= rsum n f) by (apply IH; [intros j Hj; apply Hf; lia | lia]).
    assert (0 <= f n) by (apply Hf; lia). lra.
Qed.

(** A normalised entry is at most [sqrt n] in absolute value. *)
Lemma normalize_bounded n (v : nat -> R) k :
  (k < n)%nat -> Rabs (LayerNorm.normalize n v k) <= sqrt (INR n).
Proof.
  intros Hk.
  assert (Hn : 0 < INR n) by (apply lt_0_INR; lia).
  pose proof (var_nonneg n v) as Hv. pose proof eps_pos as He.
  set (m := LayerNorm.mean n v).
  assert (Hterm : (v k - m) * (v k - m) <= LayerNorm.var n v * INR n).
  { unfold LayerNorm.var. fold m.
    replace (rsum n (fun j => (v j - m) * (v j - m)) / INR n * INR n)
      with (rsum n (fun j => (v j - m) * (v j - m))) by (field; lra).
    apply (rsum_term_le n (fun j => (v j - m) * (v j - m)) k); [|exact Hk].
    intros j _. apply Rle_0_sqr. }
  assert (Hs : sqrt (LayerNorm.var n v + LayerNorm.eps)
               * sqrt (LayerNorm.var n v + LayerNorm.eps)
               = LayerNorm.var n v + LayerNorm.eps) by (apply sqrt_sqrt; lra).
  pose proof (sqrt_var_eps_pos n v) as Hspos.
  rewrite <- sqrt_Rsqr_abs. apply sqrt_le_1_alt.
  unfold Rsqr, LayerNorm.normalize. fold m.
  set (s := sqrt (LayerNorm.var n v + LayerNorm.eps)) in *.
  replace ((v k - m) / s * ((v k - m) / s)) with ((v k - m) * (v k - m) / (s * s))
    by (field; lra).
  rewrite Hs. apply Rmult_le_reg_r with (LayerNorm.var n v + LayerNorm.eps); [lra|].
  unfold Rdiv. rewrite Rmult_assoc, Rinv_l by lra. rewrite Rmult_1_r.
  nra.
Qed.

(** X14: whatever the input, an entry of a block's output is bounded by
    the learned scale and shift of its second layer norm:
    |out| <= |weight| * sqrt D + |bias|. *)
Theorem block_output_bounded
    (tb : TransformerBlock.t) (d hidden : nat) (x : Tensor) :
  TransformerBlock.constructed d hidden tb -> dim2 x = d ->
  exists out,
    TransformerBlock.forward tb x = Ok out
    /\ forall n i k, (n < dim0 x)%nat -> (i < dim1 x)%nat -> (k < d)%nat ->
         Rabs (at3 out n i k)
         <= Rabs (LayerNorm.weight (TransformerBlock.norm2 tb) k) * sqrt (INR d)
            + Rabs (LayerNorm.bias (TransformerBlock.norm2 tb) k).
Proof.
  intros Htb Hx.
  destruct (TransformerBlock_forward_run tb d hidden x Htb Hx)
    as (a & s1 & x1 & fw & s2 & out & _ & [Hs1 _] & _ & [Hx1 _] & _ & _
        & [Hs2 _] & _ & [_ Hout] & Hf & _).
  exists out. split; [exact Hf|]. intros n i k Hn Hi Hk.
  assert (Hsh : shape s2 = shape x) by congruence.
  injection Hsh as H0 H1 H2.
  rewrite Hout by lia. rewrite H2, Hx.
  eapply Rle_trans; [apply Rabs_triang|]. apply Rplus_le_compat_r.
  rewrite Rabs_mult, Rmult_comm. apply Rmult_le_compat_l; [apply Rabs_pos|].
  apply normalize_bounded, Hk.
Qed.

Lemma block_output_bounded_witness :
  exists out,
    TransformerBlock.forward (Demo.block 2 3) (Samples.ramp 4 2) = Ok out
    /\ forall n i k, (n < 1)%nat -> (i < 4)%nat -> (k < 2)%nat ->
         Rabs (at3 out n i k)
         <= Rabs (LayerNorm.weight (TransformerBlock.norm2 (Demo.block 2 3)) k)
            * sqrt (INR 2)
            + Rabs (LayerNorm.bias (TransformerBlock.norm2 (Demo.block 2 3)) k).
Proof.
  apply (block_output_bounded (Demo.block 2 3) 2 3 (Samples.ramp 4 2)).
  - repeat split.
  - reflexivity.
Defined.

End TransformerBlockMore.

(** ** More on the language model *)

Section SimpleLLMMore.
Local Open Scope R_scope.

(** The run of [forward] on a batch of valid ids that fits the table,
    with its intermediate tensors. *)
Lemma forward_batch_run
    (m : SimpleLLM.t) (V d hidden layers : nat) (x : LongTensor) :
  SimpleLLM.constructed V d hidden layers m ->
  Embedding.in_range (SimpleLLM.embedding m) x = true ->
  (ldim1 x <= SimpleLLM.default_max_seq_len)%nat ->
  exists p y out,
    PositionalEncoding.forward (SimpleLLM.positional_encoding m)
      (transpose01 (mkTensor (ldim0 x) (ldim1 x) d (fun n i k =>
         Embedding.weight (SimpleLLM.embedding m) (Z.to_nat (lat x n i)) k))) = Ok p
    /\ SimpleLLM.sequential (SimpleLLM.transformer_blocks m) (transpose01 p) = Ok y
    /\ Linear.forward (SimpleLLM.output m) y = Ok out
    /\ SimpleLLM.forward m x = Ok out
    /\ shape p = (ldim1 x, ldim0 x, d)
    /\ shape y = (ldim0 x, ldim1 x, d)
    /\ shape out = (ldim0 x, ldim1 x, V)
    /\ (forall i n k, (i < ldim1 x)%nat -> (n < ldim0 x)%nat -> (k < d)%nat ->
          at3 p i n k
          = Embedding.weight (SimpleLLM.embedding m) (Z.to_nat (lat x n i)) k
            + at3 (PositionalEncoding.pe (SimpleLLM.positional_encoding m)) i 0 k)
    /\ (forall n i o,
          at3 out n i o
          = rsum d (fun k => at3 y n i k * Linear.weight (SimpleLLM.output m) o k)
            + Linear.bias (SimpleLLM.output m) o).
Proof.
  intros ([HeV Hed] & Hpe & _ & Hblocks & [Hoi Hoo]) Hvalid Hlen.
  unfold SimpleLLM.forward, Embedding.forward. rewrite Hvalid, Hed.
  cbn [mbind result_bind].
  match goal with
  | |- context [PositionalEncoding.forward _ ?e] =>
      destruct (forward_in_table d SimpleLLM.default_max_seq_len
                  (SimpleLLM.positional_encoding m) e Hpe eq_refl Hlen)
        as (p & Hp & Hpsh & Hpat)
  end.
  injection Hpsh as Hp0 Hp1 Hp2. cbn [transpose01 dim0 dim1 dim2] in Hp0, Hp1, Hp2, Hpat.
  destruct (sequential_shape _ d hidden Hblocks (transpose01 p)) as (y & Hy & Hysh).
  { cbn [transpose01 dim2]. exact Hp2. }
  injection Hysh as Hy0 Hy1 Hy2. cbn [transpose01 dim0 dim1 dim2] in Hy0, Hy1, Hy2.
  exists p, y. eexists.
  split; [exact Hp|]. split; [exact Hy|].
  split; [apply Linear_forward_ok; congruence|].
  split; [rewrite Hp; cbn [mbind result_bind]; rewrite Hy; cbn [mbind result_bind];
          apply Linear_forward_ok; congruence|].
  split; [unfold shape; congruence|]. split; [unfold shape; congruence|].
  split; [unfold shape; cbn [dim0 dim1 dim2]; congruence|].
  split.
  - intros i n k Hi Hn Hk. rewrite Hpat by assumption. reflexivity.
  - intros n i o. cbn [at3]. rewrite Hoi. reflexivity.
Qed.

Lemma forward_batch_invalid (m : SimpleLLM.t) (x : LongTensor) :
  Embedding.in_range (SimpleLLM.embedding m) x = false ->
  SimpleLLM.forward m x = Raise IndexError.
Proof.
  intros H. unfold SimpleLLM.forward, Embedding.forward. rewrite H. reflexivity.
Qed.

Lemma forward_batch_too_long
    (m : SimpleLLM.t) (V d hidden layers : nat) (x : LongTensor) :
  SimpleLLM.constructed V d hidden layers m ->
  Embedding.in_range (SimpleLLM.embedding m) x = true ->
  (SimpleLLM.default_max_seq_len < ldim1 x)%nat ->
  SimpleLLM.forward m x = Raise RuntimeError.
Proof.
  intros (_ & Hpe & _) Hvalid Hlen.
  destruct (init_inv _ _ _ Hpe) as (_ & _ & Hpesh & _).
  injection Hpesh as Hp0 Hp1 Hp2.
  unfold SimpleLLM.forward, Embedding.forward. rewrite Hvalid.
  cbn [mbind result_bind].
  rewrite forward_leading_mismatch; [reflexivity| |].
  - unfold PositionalEncoding.max_seq_len. rewrite Hp0.
    unfold SimpleLLM.default_max_seq_len. lia.
  - unfold PositionalEncoding.max_seq_len. rewrite Hp0.
    cbn [transpose01 dim0]. exact Hlen.
Qed.

(** X15: on any batch, [forward] of a constructed model either returns
    one logit row per position, and then every id is inside the table and
    the sequences have at most 5000 positions, or raises [IndexError]
    because some id is outside the table, or raises [RuntimeError] because
    the ids are fine and the sequences are longer than 5000. An id outside
    the table wins over the length. *)
Theorem forward_outcome
    (m : SimpleLLM.t) (V d hidden layers : nat) (x : LongTensor) :
  SimpleLLM.constructed V d hidden layers m ->
  match SimpleLLM.forward m x with
  | Ok out =>
      Embedding.in_range (SimpleLLM.embedding m) x = true
      /\ (ldim1 x <= 5000)%nat
      /\ shape out = (ldim0 x, ldim1 x, V)
  | Raise e =>
      (e = IndexError /\ Embedding.in_range (SimpleLLM.embedding m) x = false)
      \/ (e = RuntimeError
          /\ Embedding.in_range (SimpleLLM.embedding m) x = true
          /\ (5000 < ldim1 x)%nat)
  end.
Proof.
  intros Hm.
  destruct (Embedding.in_range (SimpleLLM.embedding m) x) eqn:Hvalid.
  2:{ rewrite (forward_batch_invalid m x Hvalid). left. split; reflexivity. }
  destruct (Nat.le_gt_cases (ldim1 x) SimpleLLM.default_max_seq_len) as [Hlen|Hlen].
  - destruct (forward_batch_run m V d hidden layers x Hm Hvalid Hlen)
      as (p & y & out & _ & _ & _ & Hout & _ & _ & Hsh & _).
    rewrite Hout. split; [reflexivity|]. split; [exact Hlen | exact Hsh].
  - rewrite (forward_batch_too_long m V d hidden layers x Hm Hvalid Hlen).
    right. split; [reflexivity|]. split; [reflexivity | exact Hlen].
Qed.

Lemma forward_outcome_witness :
  match SimpleLLM.forward Samples.cell_model (Samples.ids 2 3 7%Z) with
  | Ok out =>
      Embedding.in_range (SimpleLLM.embedding Samples.cell_model) (Samples.ids 2 3 7%Z)
      = true
      /\ (ldim1 (Samples.ids 2 3 7%Z) <= 5000)%nat
      /\ shape out = (ldim0 (Samples.ids 2 3 7%Z), ldim1 (Samples.ids 2 3 7%Z), 7%nat)
  | Raise e =>
      (e = IndexError
       /\ Embedding.in_range (SimpleLLM.embedding Samples.cell_model)
            (Samples.ids 2 3 7%Z) = false)
      \/ (e = RuntimeError
          /\ Embedding.in_range (SimpleLLM.embedding Samples.cell_model)
               (Samples.ids 2 3 7%Z) = true
          /\ (5000 < ldim1 (Samples.ids 2 3 7%Z))%nat)
  end.
Proof.
  apply (forward_outcome Samples.cell_model 7 16 32 2 (Samples.ids 2 3 7%Z)).
  split; [split; reflexivity|]. split; [reflexivity|]. split; [reflexivity|].
  split; [|split; reflexivity].
  constructor; [|constructor; [|constructor]]; repeat split.
Defined.

Lemma sequential_app (front back : list TransformerBlock.t) (x : Tensor) :
  SimpleLLM.sequential (front ++ back) x
  = (y ← SimpleLLM.sequential front x; SimpleLLM.sequential back y).
Proof.
  revert x. induction front as [|b front IH]; intros x; [reflexivity|].
  cbn [app SimpleLLM.sequential].
  destruct (TransformerBlock.forward b x) as [y|e]; cbn [mbind result_bind];
    [apply IH | reflexivity].
Qed.

Lemma Rabs_rsum n (f : nat -> R) : Rabs (rsum n f) <= rsum n (fun k => Rabs (f k)).
Proof.
  induction n as [|n IH]; cbn [rsum]; [rewrite Rabs_R0; lra|].
  eapply Rle_trans; [apply Rabs_triang|]. lra.
Qed.

(** X16: in a model with at least one block, every logit is bounded by a
    number that depends on the output layer and on the last block's second
    layer norm only, not on the tokens or on the length of the sequence. *)
Theorem logits_bounded
    (m : SimpleLLM.t) (V d hidden layers : nat) (x : LongTensor)
    (front : list TransformerBlock.t) (tb : TransformerBlock.t) :
  SimpleLLM.constructed V d hidden layers m ->
  SimpleLLM.transformer_blocks m = front ++ [tb] ->
  Embedding.in_range (SimpleLLM.embedding m) x = true ->
  (ldim1 x <= SimpleLLM.default_max_seq_len)%nat ->
  exists out,
    SimpleLLM.forward m x = Ok out
    /\ forall n i o, (n < ldim0 x)%nat -> (i < ldim1 x)%nat ->
         Rabs (at3 out n i o)
         <= rsum d (fun k =>
              (Rabs (LayerNorm.weight (TransformerBlock.norm2 tb) k) * sqrt (INR d)
               + Rabs (LayerNorm.bias (TransformerBlock.norm2 tb) k))
              * Rabs (Linear.weight (SimpleLLM.output m) o k))
            + Rabs (Linear.bias (SimpleLLM.output m) o).
Proof.
  intros Hm Hblocks Hvalid Hlen.
  destruct (forward_batch_run m V d hidden layers x Hm Hvalid Hlen)
    as (p & y & out & _ & Hy & _ & Hout & Hpsh & _ & _ & _ & Hat).
  destruct Hm as (_ & _ & _ & HF & _). rewrite Hblocks in HF, Hy.
  apply Forall_app in HF as [Hfront Hlast]. apply Forall_cons_1 in Hlast as [Htb _].
  injection Hpsh as Hp0 Hp1 Hp2.
  destruct (sequential_shape front d hidden Hfront (transpose01 p)) as (mid & Hmid & Hmsh).
  { cbn [transpose01 dim2]. exact Hp2. }
  injection Hmsh as Hm0 Hm1 Hm2. cbn [transpose01 dim0 dim1 dim2] in Hm0, Hm1, Hm2.
  rewrite sequential_app, Hmid in Hy. cbn [mbind result_bind SimpleLLM.sequential] in Hy.
  destruct (TransformerBlock_forward_run tb d hidden mid Htb)
    as (a & s1 & x1 & fw & s2 & y' & _ & [Hs1 _] & _ & [Hx1 _] & _ & _
        & [Hs2 _] & _ & [_ Hnorm] & Hy' & _); [congruence|].
  rewrite Hy' in Hy. cbn [mbind result_bind] in Hy. injection Hy as ->.
  assert (Hsh : shape s2 = shape mid) by congruence.
  injection Hsh as H0 H1 H2.
  exists out. split; [exact Hout|]. intros n i o Hn Hi. rewrite Hat.
  eapply Rle_trans; [apply Rabs_triang|]. apply Rplus_le_compat_r.
  eapply Rle_trans; [apply Rabs_rsum|]. apply rsum_le. intros k Hk.
  rewrite Rabs_mult. apply Rmult_le_compat_r; [apply Rabs_pos|].
  rewrite Hnorm by lia. rewrite H2, Hm2, Hp2.
  eapply Rle_trans; [apply Rabs_triang|]. apply Rplus_le_compat_r.
  rewrite Rabs_mult, Rmult_comm. apply Rmult_le_compat_l; [apply Rabs_pos|].
  apply normalize_bounded, Hk.
Qed.

Lemma logits_bounded_witness :
  exists out,
    SimpleLLM.forward Samples.cell_model (Samples.ids 2 3 6%Z) = Ok out
    /\ forall n i o, (n < 2)%nat -> (i < 3)%nat ->
         Rabs (at3 out n i o)
         <= rsum 16 (fun k =>
              (Rabs (LayerNorm.weight (TransformerBlock.norm2 (Demo.block 16 32)) k)
               * sqrt (INR 16)
               + Rabs (LayerNorm.bias (TransformerBlock.norm2 (Demo.block 16 32)) k))
              * Rabs (Linear.weight (SimpleLLM.output Samples.cell_model) o k))
            + Rabs (Linear.bias (SimpleLLM.output Samples.cell_model) o).
Proof.
  assert (Hm : SimpleLLM.constructed 7 16 32 2 Samples.cell_model).
  { split; [split; reflexivity|]. split; [reflexivity|]. split; [reflexivity|].
    split; [|split; reflexivity].
    constructor; [|constructor; [|constructor]]; repeat split. }
  apply (logits_bounded Samples.cell_model 7 16 32 2 (Samples.ids 2 3 6%Z)
           [Demo.block 16 32] (Demo.block 16 32) Hm).
  - reflexivity.
  - reflexivity.
  - apply Nat.leb_le. reflexivity.
Defined.

(** X17: with no block at all the stack is the identity, and the logits
    of a position are the output layer applied to the sum of the token's
    embedding row and the positional row of that position: they depend on
    the token and on its position only. *)
Theorem forward_without_blocks
    (m : SimpleLLM.t) (V d hidden : nat) (x : LongTensor) :
  SimpleLLM.constructed V d hidden 0 m ->
  Embedding.in_range (SimpleLLM.embedding m) x = true ->
  (ldim1 x <= SimpleLLM.default_max_seq_len)%nat ->
  exists out,
    SimpleLLM.forward m x = Ok out
    /\ forall n i o, (n < ldim0 x)%nat -> (i < ldim1 x)%nat ->
         at3 out n i o
         = rsum d (fun k =>
             (Embedding.weight (SimpleLLM.embedding m) (Z.to_nat (lat x n i)) k
              + at3 (PositionalEncoding.pe (SimpleLLM.positional_encoding m)) i 0 k)
             * Linear.weight (SimpleLLM.output m) o k)
           + Linear.bias (SimpleLLM.output m) o.
Proof.
  intros Hm Hvalid Hlen.
  destruct (forward_batch_run m V d hidden 0 x Hm Hvalid Hlen)
    as (p & y & out & _ & Hy & _ & Hout & _ & _ & _ & Hpat & Hat).
  destruct Hm as (_ & _ & Hlayers & _).
  destruct (SimpleLLM.transformer_blocks m) as [|b bs]; [|discriminate Hlayers].
  cbn [SimpleLLM.sequential] in Hy. injection Hy as <-.
  exists out. split; [exact Hout|]. intros n i o Hn Hi. rewrite Hat.
  f_equal. apply rsum_ext. intros k Hk. cbn [transpose01 at3].
  rewrite Hpat by assumption. reflexivity.
Qed.

Lemma forward_without_blocks_witness :
  exists out,
    SimpleLLM.forward
      (SimpleLLM.mk (Embedding.mk 7 2 (fun _ _ => 0)) (Demo.encoding 2 5000) []
                    (Demo.zero_linear 2 7))
      (Samples.ids 1 3 6%Z) = Ok out
    /\ forall n i o, (n < 1)%nat -> (i < 3)%nat ->
         at3 out n i o
         = rsum 2 (fun k =>
             (0 + at3 (PositionalEncoding.pe (Demo.encoding 2 5000)) i 0 k) * 0)
           + 0.
Proof.
  apply (forward_without_blocks
           (SimpleLLM.mk (Embedding.mk 7 2 (fun _ _ => 0)) (Demo.encoding 2 5000) []
                         (Demo.zero_linear 2 7))
           7 2 0 (Samples.ids 1 3 6%Z)).
  - split; [split; reflexivity|]. split; [reflexivity|]. split; [reflexivity|].
    split; [constructor|split; reflexivity].
  - reflexivity.
  - apply Nat.leb_le. reflexivity.
Defined.

End SimpleLLMMore.

(** ** The training and inference cells *)

Section CellFacts.
Local Open Scope R_scope.
Import Cells.

Lemma nth_error_map_seq {A} (f : nat -> A) (start n j : nat) :
  (j < n)%nat -> nth_error (map f (seq start n)) j = Some (f (start + j)%nat).
Proof.
  intros H. rewrite nth_error_map.
  rewrite (nth_error_nth' (seq start n) 0%nat) by (rewrite length_seq; exact H).
  rewrite seq_nth by exact H. reflexivity.
Qed.

Lemma firstn_snoc {A} (l : list A) (i : nat) (a : A) :
  nth_error l i = Some a -> firstn i l ++ [a] = firstn (S i) l.
Proof.
  revert l. induction i as [|i IH]; intros [|x l] H; try discriminate.
  - injection H as ->. reflexivity.
  - cbn [nth_error] in H. cbn [firstn app]. f_equal. apply IH, H.
Qed.

(** X18: the training loop makes one pair per position after the first:
    pair [j] is the first [j+1] tokens with token [j+1] as its target, so
    every input is a non-empty proper prefix of the sentence followed, in
    the sentence, by its target; a sentence of fewer than two tokens
    makes no pair. *)
Theorem training_pairs_are_prefixes (sentence : list Z) :
  List.length (training_pairs sentence) = (List.length sentence - 1)%nat
  /\ forall j input target,
       nth_error (training_pairs sentence) j = Some (input, target) ->
       input = firstn (j + 1) sentence
       /\ nth_error sentence (j + 1) = Some target
       /\ List.length input = (j + 1)%nat
       /\ input ++ [target] = firstn (j + 2) sentence.
Proof.
  unfold training_pairs. split; [rewrite length_map, length_seq; reflexivity|].
  intros j input target H.
  assert (Hj : (j < List.length sentence - 1)%nat).
  { assert (Hsome : nth_error (map (fun i => (firstn i sentence, nth i sentence 0%Z))
                                   (seq 1 (List.length sentence - 1))) j <> None)
      by congruence.
    apply nth_error_Some in Hsome. rewrite length_map, length_seq in Hsome.
    exact Hsome. }
  rewrite nth_error_map_seq in H by exact Hj.
  replace (1 + j)%nat with (j + 1)%nat in H by lia. injection H as <- <-.
  assert (Hnth : nth_error sentence (j + 1) = Some (nth (j + 1) sentence 0%Z))
    by (apply nth_error_nth'; lia).
  split; [reflexivity|]. split; [exact Hnth|].
  split; [rewrite length_firstn; lia|].
  replace (j + 2)%nat with (S (j + 1)) by lia. apply firstn_snoc, Hnth.
Qed.

Lemma training_pairs_are_prefixes_witness :
  List.length (training_pairs [0; 1; 2; 3]%Z) = 3%nat
  /\ ([0; 1]%Z = firstn (1 + 1) [0; 1; 2; 3]%Z
      /\ nth_error [0; 1; 2; 3]%Z (1 + 1) = Some 2%Z
      /\ List.length [0; 1]%Z = (1 + 1)%nat
      /\ [0; 1]%Z ++ [2%Z] = firstn (1 + 2) [0; 1; 2; 3]%Z).
Proof.
  split.
  - apply (proj1 (training_pairs_are_prefixes [0; 1; 2; 3]%Z)).
  - apply (proj2 (training_pairs_are_prefixes [0; 1; 2; 3]%Z) 1%nat [0; 1]%Z 2%Z).
    reflexivity.
Defined.

Lemma rsum_two_terms n (f : nat -> R) j k :
  (forall i, (i < n)%nat -> 0 <= f i) ->
  (j < n)%nat -> (k < n)%nat -> j <> k -> f j + f k <= rsum n f.
Proof.
  induction n as [|n IH]; intros Hf Hj Hk Hne; [lia|]. cbn [rsum].
  assert (Hf' : forall i, (i < n)%nat -> 0 <= f i) by (intros i Hi; apply Hf; lia).
  destruct (Nat.eq_dec j n) as [->|Hjn].
  - pose proof (rsum_term_le n f k Hf' ltac:(lia)). lra.
  - destruct (Nat.eq_dec k n) as [->|Hkn].
    + pose proof (rsum_term_le n f j Hf' ltac:(lia)). lra.
    + pose proof (IH Hf' ltac:(lia) ltac:(lia) Hne).
      assert (0 <= f n) by (apply Hf; lia). lra.
Qed.

(** The softmax probability of a class is positive and at most one. *)
Lemma class_probability_bounds C (z : nat -> R) t :
  (t < C)%nat ->
  0 < exp (z t) / rsum C (fun c => exp (z c)) <= 1.
Proof.
  intros Ht.
  assert (HS : 0 < rsum C (fun c => exp (z c))) by (apply rsum_exp_pos; lia).
  assert (Hle : exp (z t) <= rsum C (fun c => exp (z c))).
  { apply (rsum_term_le C (fun c => exp (z c)) t); [|exact Ht].
    intros i _. apply Rlt_le, exp_pos. }
  pose proof (exp_pos (z t)). split.
  - apply Rdiv_lt_0_compat; assumption.
  - apply Rmult_le_reg_r with (rsum C (fun c => exp (z c))); [exact HS|].
    unfold Rdiv. rewrite Rmult_assoc, Rinv_l by lra. lra.
Qed.

(** A class with probability above one half has the largest logit. *)
Lemma majority_class_is_largest C (z : nat -> R) t j :
  (t < C)%nat -> (j < C)%nat -> j <> t ->
  / 2 < exp (z t) / rsum C (fun c => exp (z c)) ->
  z j < z t.
Proof.
  intros Ht Hj Hne Hp.
  assert (HS : 0 < rsum C (fun c => exp (z c))) by (apply rsum_exp_pos; lia).
  assert (H2 : exp (z j) + exp (z t) <= rsum C (fun c => exp (z c))).
  { apply (rsum_two_terms C (fun c => exp (z c)) j t); try assumption.
    intros i _. apply Rlt_le, exp_pos. }
  apply exp_lt_inv.
  apply Rmult_lt_compat_r with (r := rsum C (fun c => exp (z c))) in Hp; [|exact HS].
  unfold Rdiv in Hp. rewrite Rmult_assoc, Rinv_l in Hp by lra. lra.
Qed.

Lemma argmax_strict_max (l : list R) (t : nat) :
  (t < List.length l)%nat ->
  (forall j, (j < List.length l)%nat -> j <> t -> nth j l 0 < nth t l 0) ->
  argmax Rgtb l = Ok t.
Proof.
  intros Ht Hmax.
  destruct (argmax_first_max l) as (r & Hr & Hlt & Hall & _).
  { destruct l; [simpl in Ht; lia | discriminate]. }
  rewrite Hr. f_equal. destruct (Nat.eq_dec r t) as [->|Hne]; [reflexivity|].
  specialize (Hmax r Hlt Hne). specialize (Hall t Ht). lra.
Qed.

Lemma cross_entropy_finite (last : Matrix) (target : Z) (r : R) :
  cross_entropy last target = Returned (Finite r) ->
  rows last = 1%nat
  /\ (0 <= target < Z.of_nat (cols last))%Z
  /\ r = - ln (exp (at2 last 0 (Z.to_nat target))
               / rsum (cols last) (fun c => exp (at2 last 0 c))).
Proof.
  unfold cross_entropy. destruct (rows last =? 1)%nat eqn:Er; cbn [negb]; [|discriminate].
  destruct (target =? ignore_index)%Z; [discriminate|].
  destruct ((0 <=? target)%Z && (target <? Z.of_nat (cols last))%Z) eqn:Et;
    [|discriminate].
  intros [= <-]. apply andb_prop in Et as [Ha Hb].
  apply Z.leb_le in Ha. apply Z.ltb_lt in Hb. apply Nat.eqb_eq in Er.
  split; [exact Er|]. split; [lia|reflexivity].
Qed.

(** A finite loss is minus the logarithm of a probability. *)
Lemma finite_loss_nonneg
    (m : SimpleLLM.t) (input : list Z) (target : Z) (r : R) :
  training_loss m input target = Returned (Finite r) -> 0 <= r.
Proof.
  unfold training_loss. destruct input as [|t0 ts]; [discriminate|].
  destruct (SimpleLLM.forward m (tensor_unsqueeze (t0 :: ts))) as [out|e];
    [|discriminate].
  destruct (select_last out) as [last|e]; [|discriminate]. intros H.
  destruct (cross_entropy_finite last target r H) as (Hrows & Ht & ->).
  pose proof (class_probability_bounds (cols last) (at2 last 0) (Z.to_nat target)
                ltac:(lia)) as [Hp0 Hp1].
  assert (ln (exp (at2 last 0 (Z.to_nat target))
              / rsum (cols last) (fun c => exp (at2 last 0 c))) <= 0); [|lra].
  destruct Hp1 as [Hp1|Hp1].
  - rewrite <- ln_1. apply Rlt_le, ln_increasing; assumption.
  - rewrite Hp1, ln_1. lra.
Qed.

(** X19: a finite loss is never negative, and a loss below ln 2 means
    that the model already predicts the target: the inference cell's
    argmax on the same input returns the target id. *)
Theorem low_loss_predicts_target
    (m : SimpleLLM.t) (input : list Z) (target : Z) (r : R) :
  training_loss m input target = Returned (Finite r) ->
  0 <= r
  /\ (r < ln 2 -> SimpleLLM.predict_next m input = Ok (Z.to_nat target)).
Proof.
  intros Hloss. split; [apply (finite_loss_nonneg m input target r Hloss)|].
  revert Hloss. unfold training_loss, SimpleLLM.predict_next.
  destruct input as [|t0 ts]; [discriminate|].
  destruct (SimpleLLM.forward m (tensor_unsqueeze (t0 :: ts))) as [out|e];
    [|discriminate].
  cbn [mbind result_bind].
  destruct (select_last out) as [last|e]; [|discriminate].
  cbn [mbind result_bind]. intros H.
  destruct (cross_entropy_finite last target r H) as (Hrows & Ht & ->).
  assert (Htn : (Z.to_nat target < cols last)%nat) by lia.
  pose proof (class_probability_bounds (cols last) (at2 last 0) (Z.to_nat target) Htn)
    as [Hp0 _].
  intros Hlow. rewrite flatten_one_row by exact Hrows.
  assert (Hhalf : / 2 < exp (at2 last 0 (Z.to_nat target))
                        / rsum (cols last) (fun c => exp (at2 last 0 c))).
  { apply ln_lt_inv; [lra | exact Hp0 |]. rewrite ln_Rinv by lra. lra. }
  apply argmax_strict_max.
  - rewrite length_map, length_seq. exact Htn.
  - rewrite length_map, length_seq. intros j Hj Hne.
    rewrite !nth_map_seq by assumption.
    apply (majority_class_is_largest (cols last) (at2 last 0)); assumption.
Qed.

(** On a non-empty input of valid ids that fits the table, with a valid
    target, the loss is a number. *)
Lemma training_loss_returns
    (m : SimpleLLM.t) (V d hidden layers : nat) (input : list Z) (target : Z) :
  SimpleLLM.constructed V d hidden layers m ->
  input <> [] ->
  Forall (fun t => (0 <= t < Z.of_nat V)%Z) input ->
  (List.length input <= SimpleLLM.default_max_seq_len)%nat ->
  (0 <= target < Z.of_nat V)%Z ->
  exists r, training_loss m input target = Returned (Finite r).
Proof.
  intros Hm Hne Hvalid Hlen Ht.
  destruct (forward_ok m V d hidden layers input Hm) as (out & Hout & Hsh);
    [apply (valid_ids_forallb _ V); [apply Hm | exact Hvalid] | exact Hlen |].
  injection Hsh as H0 H1 H2.
  unfold training_loss. destruct input as [|t0 ts]; [congruence|].
  rewrite Hout. unfold select_last. rewrite H1. cbn [List.length Nat.eqb].
  unfold cross_entropy. cbn [rows cols at2]. rewrite H0, H2. cbn [Nat.eqb negb].
  replace (target =? ignore_index)%Z with false
    by (symmetry; apply Z.eqb_neq; unfold ignore_index; lia).
  replace ((0 <=? target)%Z && (target <? Z.of_nat V)%Z) with true.
  - eexists. reflexivity.
  - symmetry. apply andb_true_intro. split; [apply Z.leb_le | apply Z.ltb_lt]; lia.
Qed.

(** The loss written out on the logits of the last position. *)
Lemma training_loss_value
    (m : SimpleLLM.t) (input : list Z) (target : Z) (r : R) :
  training_loss m input target = Returned (Finite r) ->
  exists out,
    SimpleLLM.forward m (tensor_unsqueeze input) = Ok out
    /\ r = - ln (exp (at3 out 0 (dim1 out - 1) (Z.to_nat target))
                 / rsum (dim2 out) (fun c => exp (at3 out 0 (dim1 out - 1) c))).
Proof.
  unfold training_loss. destruct input as [|t0 ts]; [discriminate|].
  destruct (SimpleLLM.forward m (tensor_unsqueeze (t0 :: ts))) as [out|e];
    [|discriminate].
  unfold select_last. destruct (dim1 out =? 0)%nat; [discriminate|]. intros H.
  destruct (cross_entropy_finite _ target r H) as (_ & _ & ->).
  exists out. split; reflexivity.
Qed.

(** With zero output weights every logit is the bias of its word. *)
Lemma zero_weight_logits
    (m : SimpleLLM.t) (i o : nat) (b : nat -> R) (x : LongTensor) (out : Tensor) :
  SimpleLLM.output m = Linear.mk i o (fun _ _ => 0) b ->
  SimpleLLM.forward m x = Ok out ->
  forall n p j, at3 out n p j = b j.
Proof.
  intros Hz Hout n p j. unfold SimpleLLM.forward in Hout. rewrite Hz in Hout.
  destruct (Embedding.forward (SimpleLLM.embedding m) x) as [e|]; [|discriminate].
  cbn [mbind result_bind] in Hout.
  destruct (PositionalEncoding.forward (SimpleLLM.positional_encoding m)
              (transpose01 e)) as [q|]; [|discriminate].
  cbn [mbind result_bind] in Hout.
  destruct (SimpleLLM.sequential (SimpleLLM.transformer_blocks m) (transpose01 q))
    as [y|]; [|discriminate].
  cbn [mbind result_bind] in Hout. unfold Linear.forward in Hout.
  cbn [Linear.in_features Linear.out_features Linear.weight Linear.bias] in Hout.
  destruct (dim2 y =? i)%nat; [|discriminate].
  injection Hout as <-. cbn [at3].
  rewrite (rsum_ext i _ (fun _ => 0)) by (intros; ring).
  rewrite rsum_const. ring.
Qed.

Lemma low_loss_predicts_target_witness :
  exists r,
    training_loss Samples.biased_model [0%Z; 0%Z] 1%Z = Returned (Finite r)
    /\ 0 <= r
    /\ r < ln 2
    /\ SimpleLLM.predict_next Samples.biased_model [0%Z; 0%Z] = Ok 1%nat.
Proof.
  assert (Hm : SimpleLLM.constructed 2 2 2 1 Samples.biased_model).
  { split; [split; reflexivity|]. split; [reflexivity|]. split; [reflexivity|].
    split; [|split; reflexivity].
    constructor; [|constructor]. repeat split. }
  assert (Hv : Forall (fun t => (0 <= t < Z.of_nat 2)%Z) [0%Z; 0%Z]).
  { constructor; [lia|]. constructor; [lia|]. constructor. }
  assert (Hl : (List.length [0%Z; 0%Z] <= SimpleLLM.default_max_seq_len)%nat).
  { apply Nat.leb_le. reflexivity. }
  destruct (training_loss_returns Samples.biased_model 2 2 2 1 [0%Z; 0%Z] 1%Z Hm
              ltac:(discriminate) Hv Hl ltac:(lia)) as (r & H).
  destruct (low_loss_predicts_target Samples.biased_model [0%Z; 0%Z] 1%Z r H)
    as [Hnonneg Hlow].
  assert (Hr : r < ln 2).
  { destruct (training_loss_value _ _ _ _ H) as (out & Hout & ->).
    destruct (forward_ok Samples.biased_model 2 2 2 1 [0%Z; 0%Z] Hm) as (out' & Hout' & Hsh);
      [apply (valid_ids_forallb _ 2); [reflexivity | exact Hv] | exact Hl |].
    assert (out' = out) by congruence. subst out'.
    injection Hsh as _ _ H2. rewrite H2.
    pose proof (zero_weight_logits Samples.biased_model 2 2 _ _ out eq_refl Hout) as Hrow.
    cbn [rsum]. rewrite !Hrow. change (Z.to_nat 1) with 1%nat. cbn [Nat.eqb].
    pose proof (exp_pos 2) as He2. pose proof (exp_pos 0) as He0.
    assert (Hgt : exp 0 < exp 2) by (apply exp_increasing; lra).
    assert (Hhalf : / 2 < exp 2 / (0 + exp 0 + exp 2)).
    { apply Rmult_lt_reg_r with (0 + exp 0 + exp 2); [lra|].
      unfold Rdiv. rewrite Rmult_assoc, Rinv_l by lra. lra. }
    apply ln_increasing in Hhalf; [|lra]. rewrite ln_Rinv in Hhalf by lra. lra. }
  exists r. split; [exact H|]. split; [exact Hnonneg|]. split; [exact Hr|].
  exact (Hlow Hr).
Defined.

(** X20: when every token of a sentence is a valid id and the sentence
    has at most 5001 tokens, no step of the training loop raises before
    the backward pass: for every pair the forward pass returns and the
    loss is a non-negative number. *)
Theorem training_steps_return
    (m : SimpleLLM.t) (V d hidden layers : nat) (sentence : list Z) :
  SimpleLLM.constructed V d hidden layers m ->
  Forall (fun t => (0 <= t < Z.of_nat V)%Z) sentence ->
  (List.length sentence <= S SimpleLLM.default_max_seq_len)%nat ->
  forall input target, In (input, target) (training_pairs sentence) ->
  exists r, training_loss m input target = Returned (Finite r) /\ 0 <= r.
Proof.
  intros Hm Hvalid Hlen input target Hin.
  unfold training_pairs in Hin. apply in_map_iff in Hin as (i & Hi & Hseq).
  apply in_seq in Hseq. injection Hi as <- <-.
  rewrite Forall_forall in Hvalid.
  destruct (training_loss_returns m V d hidden layers (firstn i sentence)
              (nth i sentence 0%Z) Hm) as (r & Hr).
  - intros E. apply (f_equal (@List.length Z)) in E.
    rewrite length_firstn in E. simpl in E. lia.
  - apply Forall_forall. intros t Ht. apply Hvalid.
    apply (subseteq_take i sentence), Ht.
  - rewrite length_firstn. lia.
  - apply Hvalid, list_elem_of_In, nth_In. lia.
  - exists r. split; [exact Hr|].
    apply (finite_loss_nonneg m (firstn i sentence) (nth i sentence 0%Z) r Hr).
Qed.

Lemma training_steps_return_witness :
  exists r, training_loss Demo.model [0%Z; 1%Z] 0%Z = Returned (Finite r) /\ 0 <= r.
Proof.
  assert (Hm : SimpleLLM.constructed 2 2 2 1 Demo.model).
  { split; [split; reflexivity|]. split; [reflexivity|]. split; [reflexivity|].
    split; [|split; reflexivity].
    constructor; [|constructor]. repeat split. }
  assert (Hv : Forall (fun t => (0 <= t < Z.of_nat 2)%Z) [0%Z; 1%Z; 0%Z]).
  { constructor; [lia|]. constructor; [lia|]. constructor; [lia|]. constructor. }
  assert (Hl : (List.length [0%Z; 1%Z; 0%Z] <= S SimpleLLM.default_max_seq_len)%nat).
  { apply Nat.leb_le. reflexivity. }
  apply (training_steps_return Demo.model 2 2 2 1 [0%Z; 1%Z; 0%Z] Hm Hv Hl).
  right. left. reflexivity.
Defined.

(** The inference cell's argmax on valid ids that fit the table. *)
Lemma predict_next_in_range
    (m : SimpleLLM.t) (V d hidden layers : nat) (tokens : list Z) :
  SimpleLLM.constructed V d hidden layers m -> tokens <> [] ->
  Forall (fun t => (0 <= t < Z.of_nat V)%Z) tokens ->
  (List.length tokens <= SimpleLLM.default_max_seq_len)%nat ->
  exists i, SimpleLLM.predict_next m tokens = Ok i /\ (i < V)%nat.
Proof.
  intros Hm Hne Hvalid Hlen.
  destruct (forward_ok m V d hidden layers tokens Hm) as (out & Hout & Hsh);
    [apply (valid_ids_forallb _ V); [apply Hm | exact Hvalid] | exact Hlen |].
  injection Hsh as H0 H1 H2.
  destruct tokens as [|t ts]; [congruence|].
  assert (HV : (0 < V)%nat) by (apply Forall_cons_1 in Hvalid as [Ht _]; lia).
  unfold SimpleLLM.predict_next. rewrite Hout. cbn [mbind result_bind].
  unfold select_last. rewrite H1. cbn [List.length Nat.eqb mbind result_bind].
  rewrite flatten_one_row by (cbn [rows]; exact H0).
  cbn [cols at2]. rewrite H2.
  destruct (argmax_first_max
              (map (fun k => at3 out 0 (S (List.length ts) - 1) k) (seq 0 V)))
    as (r & Hr & Hlt & _).
  { destruct V; [lia|]. discriminate. }
  rewrite length_map, length_seq in Hlt. exists r. split; assumption.
Qed.

Lemma word_of_total (items : list (string * Z)) (t : Z) :
  In t (values items) -> exists w, word_of items t = Returned w /\ In w (keys items).
Proof.
  induction items as [|[k v] items IH]; [intros []|].
  rewrite word_of_cons. cbn [values keys map fst snd]. destruct (v =? t)%Z eqn:E.
  - intros _. exists k. split; [reflexivity | left; reflexivity].
  - apply Z.eqb_neq in E. intros [H|H]; [congruence|].
    destruct (IH H) as (w & Hw & Hin). exists w. split; [exact Hw | right; exact Hin].
Qed.

Lemma as_vocab_lookup_key (items : list (string * Z)) (k : string) :
  In k (keys items) -> exists v, as_vocab items !! k = Some v.
Proof.
  intros H. unfold as_vocab. destruct (list_to_map items !! k) as [v|] eqn:E.
  - exists v. reflexivity.
  - exfalso. apply (not_elem_of_list_to_map_2 (M := gmap string)) in E.
    apply E, list_elem_of_In. exact H.
Qed.

Lemma as_vocab_lookup_value (items : list (string * Z)) (k : string) (v : Z) :
  as_vocab items !! k = Some v -> In v (values items).
Proof.
  intros H. apply elem_of_list_to_map_2, list_elem_of_In in H.
  change v with (snd (k, v)). apply in_map, H.
Qed.

(** X21: when the vocabulary is a dict whose ids are exactly the ids
    below the vocabulary size of the model and ["<UNK>"] is a key, the inference
    cell raises nothing on a text of one to 5000 words: it returns a word
    of the vocabulary. *)
Theorem inference_returns_vocabulary_word
    (m : SimpleLLM.t) (V d hidden layers : nat)
    (items : list (string * Z)) (text : string) :
  SimpleLLM.constructed V d hidden layers m ->
  NoDup (keys items) ->
  (forall t, In t (values items) <-> (0 <= t < Z.of_nat V)%Z) ->
  In "<UNK>" (keys items) ->
  Tokenizer.blank text = false ->
  (List.length (Tokenizer.split text) <= SimpleLLM.default_max_seq_len)%nat ->
  exists word, inference m items text = Returned word /\ In word (keys items).
Proof.
  intros Hm _ Hdense Hunk Hblank Hlen.
  destruct (as_vocab_lookup_key items "<UNK>" Hunk) as (unk & Hu).
  unfold inference, Tokenizer.tokenize.
  rewrite (comprehension_ok _ (fun w => default unk (as_vocab items !! w)))
    by (intros w _; apply lookup_word_ok, Hu).
  destruct (predict_next_in_range m V d hidden layers
              (map (fun w => default unk (as_vocab items !! w)) (Tokenizer.split text)) Hm)
    as (i & Hi & HiV).
  - intros E. apply map_eq_nil, split_nil_iff in E. congruence.
  - apply Forall_forall. intros t Ht. apply list_elem_of_In, in_map_iff in Ht
      as (w & <- & _).
    apply Hdense. destruct (as_vocab items !! w) as [v|] eqn:Ew; cbn [default].
    + apply (as_vocab_lookup_value items w v Ew).
    + apply (as_vocab_lookup_value items "<UNK>" unk Hu).
  - rewrite length_map. exact Hlen.
  - rewrite Hi. apply word_of_total, Hdense. lia.
Qed.

Lemma inference_returns_vocabulary_word_witness :
  exists word,
    inference Samples.cell_model vocab_items "hello world what are you" = Returned word
    /\ In word (keys vocab_items).
Proof.
  apply (inference_returns_vocabulary_word Samples.cell_model 7 16 32 2 vocab_items
           "hello world what are you").
  - split; [split; reflexivity|]. split; [reflexivity|]. split; [reflexivity|].
    split; [|split; reflexivity].
    constructor; [|constructor; [|constructor]]; repeat split.
  - refine (bool_decide_unpack _ _). vm_compute. exact I.
  - intros t. simpl. lia.
  - simpl. auto 10.
  - reflexivity.
  - apply Nat.leb_le. reflexivity.
Defined.

End CellFacts.

(** ** What a call reads

    Every operation reads its operands inside their shapes only, so the
    result of a call is fixed by the numbers the model and the input
    hold. *)

Section Dependence.
Local Open Scope R_scope.





























End Dependence.
